(** * The retrieval-augmented conversation engine of [src/index.tsx]

    A shallow embedding of [CommandView]'s [handleSend] pipeline: the
    memory scan over [MOCK_MEMORY], the context assembly, the streaming
    loop and the fallback and fault paths, together with the timers the
    handler suspends on.

    Strings are Rocq [string]s (8-bit characters) and stand for ASCII
    texts, which is all the source's own literals use.  On ASCII texts the
    case mappings and [trim] below are those of JavaScript; outside that
    range JavaScript also maps and strips characters these definitions
    leave alone, so the statements that depend on them for arbitrary
    texts carry [ascii_text] as a hypothesis. *)

From Stdlib Require Import List String Ascii Bool Arith NArith Lia QArith DecimalString.
From Stdlib Require PrimFloat Uint63.
Import ListNotations.
Local Open Scope string_scope.
Local Open Scope nat_scope.

(** ** JavaScript string primitives used by the handler *)

Module JS.

Definition nl : string := String (ascii_of_nat 10) EmptyString.

Definition lower_char (c : ascii) : ascii :=
  let n := nat_of_ascii c in
  if (65 <=? n) && (n <=? 90) then ascii_of_nat (n + 32) else c.

Definition upper_char (c : ascii) : ascii :=
  let n := nat_of_ascii c in
  if (97 <=? n) && (n <=? 122) then ascii_of_nat (n - 32) else c.

Fixpoint map_chars (f : ascii -> ascii) (s : string) : string :=
  match s with
  | EmptyString => EmptyString
  | String c s' => String (f c) (map_chars f s')
  end.

(** [s.toLowerCase()] and [s.toUpperCase()]. *)
Definition toLowerCase : string -> string := map_chars lower_char.
Definition toUpperCase : string -> string := map_chars upper_char.

(** [s.includes(sub)]: [sub] occurs in [s] at some position. *)
Fixpoint includes (s sub : string) : bool :=
  String.prefix sub s ||
  match s with
  | EmptyString => false
  | String _ s' => includes s' sub
  end.

Definition is_space (c : ascii) : bool :=
  let n := nat_of_ascii c in
  ((9 <=? n) && (n <=? 13)) || (n =? 32).

Fixpoint trimStart (s : string) : string :=
  match s with
  | EmptyString => EmptyString
  | String c s' => if is_space c then trimStart s' else s
  end.

Fixpoint trimEnd (s : string) : string :=
  match s with
  | EmptyString => EmptyString
  | String c s' =>
      match trimEnd s' with
      | EmptyString => if is_space c then EmptyString else String c EmptyString
      | t => String c t
      end
  end.

(** [s.trim()]. *)
Definition trim (s : string) : string := trimEnd (trimStart s).

(** Truthiness of a string value: only the empty string is falsy. *)
Definition truthy (s : string) : bool :=
  match s with EmptyString => false | String _ _ => true end.

(** Truthiness of a possibly undefined string ([process.env.X]). *)
Definition defined_truthy (o : option string) : bool :=
  match o with None => false | Some s => truthy s end.

(** [a || b] on strings. *)
Definition or_else (a b : string) : string := if truthy a then a else b.

(** Decimal rendering of a non-negative integer, as [n.toString()] and
    template interpolation give it. *)
Definition of_nat (n : nat) : string := NilZero.string_of_uint (Nat.to_uint n).
Definition of_N (n : N) : string := NilZero.string_of_uint (N.to_uint n).

(** [xs.join(sep)]. *)
Definition join (sep : string) (xs : list string) : string := String.concat sep xs.

End JS.

(** ** Data model *)

Inductive Source := claude | chatgpt | grok.

Definition Source_text (s : Source) : string :=
  match s with
  | claude => "claude"
  | chatgpt => "chatgpt"
  | grok => "grok"
  end.

Module Chunk.
Record t := mk {
  id : string;
  source : Source;
  title : string;
  content : string;
  timestamp : string;
  semanticScore : Q;
  lexicalScore : Q;
  tags : list string
}.
End Chunk.

Inductive Role := user | assistant | system.

Definition Role_eqb (a b : Role) : bool :=
  match a, b with
  | user, user | assistant, assistant | system, system => true
  | _, _ => false
  end.

Module Message.
(** [timestamp] is the clock reading (milliseconds) at creation;
    [isStreaming] is optional in the source, [None] stands for a record
    built without the field. *)
Record t := mk {
  id : string;
  role : Role;
  content : string;
  timestamp : N;
  isStreaming : option bool
}.

Definition with_content (m : t) (c : string) : t :=
  mk (id m) (role m) c (timestamp m) (isStreaming m).

Definition with_isStreaming (m : t) (b : bool) : t :=
  mk (id m) (role m) (content m) (timestamp m) (Some b).

(** The test [msg.isStreaming && ...] of the chat area. *)
Definition streaming (m : t) : bool :=
  match isStreaming m with Some true => true | _ => false end.
End Message.

(** ** Mock data *)

Definition MOCK_MEMORY : list Chunk.t :=
  [ Chunk.mk "chk_1" claude "Project Alpha Architecture"
      "For the scalable backend of Project Alpha, we should stick to a microservices architecture using Go for high-throughput services and Python for the data science pipeline. The API gateway will handle authentication."
      "2024-10-15T10:30:00Z" (92 # 100) (88 # 100)
      ["architecture"; "backend"; "go"; "python"];
    Chunk.mk "chk_3" claude "Q4 Marketing Plan"
      "The Q4 marketing push will focus on 'Executive Intelligence'. We need to highlight the hybrid search capabilities and the secure on-premise deployment options. Budget allocation: 40% ads, 30% content, 30% events."
      "2024-12-01T09:00:00Z" (78 # 100) (95 # 100)
      ["marketing"; "Q4"; "budget"];
    Chunk.mk "chk_6" claude "Team Sync Notes"
      "Action items: Sarah to finalize the Figma designs for the dashboard. Mike to optimize the Qdrant indexer params. Released v2.1 to staging."
      "2025-01-12T09:30:00Z" (65 # 100) (90 # 100)
      ["meeting"; "notes"; "team"] ].

(** ** Relevance scan (lines 440-443) *)

Definition chunk_matches (userMsg : string) (c : Chunk.t) : bool :=
  JS.includes (JS.toLowerCase (Chunk.content c)) (JS.toLowerCase userMsg)
  || existsb (fun t => JS.includes (JS.toLowerCase userMsg) t) (Chunk.tags c).

Definition relevantChunks (memory : list Chunk.t) (userMsg : string) : list Chunk.t :=
  filter (chunk_matches userMsg) memory.

(** ** Context assembly and prompt (lines 464-475, 483) *)

Definition render_chunk (c : Chunk.t) : string :=
  "[REF: " ++ Chunk.id c ++ " | " ++ JS.toUpperCase (Source_text (Chunk.source c))
  ++ "]: " ++ Chunk.content c.

Definition context (relevant : list Chunk.t) : string :=
  JS.join (JS.nl ++ JS.nl) (map render_chunk relevant).

Definition no_archival_data : string := "No archival data found.".

Definition indent8 : string := "        ".

Definition systemPrompt (relevant : list Chunk.t) : string :=
  "You are E.A./SYSTEM. A hyper-efficient executive operating system." ++ JS.nl
  ++ indent8 ++ "Context: " ++ JS.or_else (context relevant) no_archival_data ++ JS.nl
  ++ indent8 ++ JS.nl
  ++ indent8 ++ "Directives:" ++ JS.nl
  ++ indent8 ++ "- Output strictly in formatted text." ++ JS.nl
  ++ indent8 ++ "- Be concise, authoritative, and data-driven." ++ JS.nl
  ++ indent8 ++ "- If referencing context, use [REF] markers." ++ JS.nl
  ++ indent8.

Definition prompt (relevant : list Chunk.t) (userMsg : string) : string :=
  systemPrompt relevant ++ JS.nl ++ JS.nl ++ "Query: " ++ userMsg.

(** ** History updates

    Each definition is one functional update handed to [setHistory]. *)

Abbreviation History := (list Message.t).

Definition is_system (m : Message.t) : bool := Role_eqb (Message.role m) system.

Definition scanning_text : string := "Scanning neural memory banks...".

Definition identified_text (n : nat) : string :=
  "Identified " ++ JS.of_nat n ++ " relevant memory fragments.".

Definition offline_text : string :=
  "SYSTEM_ALERT: Neural Link Offline (Missing API Key).".

Definition error_text : string :=
  "CRITICAL_ERROR: Processing matrix interruption.".

Definition user_message (msgId userMsg : string) (t : N) : Message.t :=
  Message.mk msgId user userMsg t None.

Definition scanning_notice (msgId : string) (t : N) : Message.t :=
  Message.mk ("sys-" ++ msgId) system scanning_text t None.

Definition streaming_message (assistantMsgId : string) (t : N) : Message.t :=
  Message.mk assistantMsgId assistant "" t (Some true).

Definition offline_notice (t : N) : Message.t :=
  Message.mk "err" assistant offline_text t None.

Definition error_notice (t : N) : Message.t :=
  Message.mk "err" assistant error_text t None.

(** [prev => [...prev, m]] *)
Definition push (m : Message.t) (prev : History) : History := (prev ++ [m])%list.

(** Lines 448-454: rewrite the last message when it is a system one.  On an
    empty array the source would read [role] of [undefined]; the handler
    has pushed the user message before, so that case is not reached and is
    left as the identity here. *)
Definition report_count (n : nat) (prev : History) : History :=
  match rev prev with
  | [] => prev
  | last :: front =>
      if is_system last
      then (rev front ++ [Message.with_content last (identified_text n)])%list
      else prev
  end.

(** Line 457: [prev.filter(m => m.role !== 'system')]. *)
Definition drop_system (prev : History) : History :=
  filter (fun m => negb (is_system m)) prev.

(** Lines 491-493. *)
Definition set_content (assistantMsgId fullText : string) (prev : History) : History :=
  map (fun m => if String.eqb (Message.id m) assistantMsgId
                then Message.with_content m fullText else m) prev.

(** Lines 496-498. *)
Definition stop_streaming (assistantMsgId : string) (prev : History) : History :=
  map (fun m => if String.eqb (Message.id m) assistantMsgId
                then Message.with_isStreaming m false else m) prev.

(** ** The generation client

    What [generateContentStream] and the [for await] loop observe: chunks,
    each after some latency, closed by normal completion or by a fault.  A
    fault with no chunk before it covers a rejected call.

    Line 489 calls [chunk.text()].  [Yield] is a chunk on which that call
    returns a text.  [YieldGetter] is a chunk as [@google/genai], the
    package imported on line 9, delivers it: [text] is an accessor (a text
    or [undefined]) and not a function, so the call throws a [TypeError]
    and the loop is left for the [catch] block. *)

Inductive Stream :=
| Yield (latency : N) (text : string) (rest : Stream)
| Done (latency : N)
| Fault (latency : N)
| YieldGetter (latency : N) (text : option string) (rest : Stream).

Definition latency (r : Stream) : N :=
  match r with
  | Yield d _ _ => d
  | Done d => d
  | Fault d => d
  | YieldGetter d _ _ => d
  end.

(** The texts line 489 obtains before the loop is left. *)
Fixpoint increments (r : Stream) : list string :=
  match r with
  | Yield _ text rest => text :: increments rest
  | Done _ | Fault _ | YieldGetter _ _ _ => []
  end.

(** The loop is left by an exception: a fault of the backend or the
    failing call on a chunk. *)
Fixpoint faulted (r : Stream) : bool :=
  match r with
  | Yield _ _ rest => faulted rest
  | Done _ => false
  | Fault _ => true
  | YieldGetter _ _ _ => true
  end.

Record Env := {
  API_KEY : option string;                    (* process.env.API_KEY *)
  memory : list Chunk.t;                      (* MOCK_MEMORY in the source *)
  generateContentStream : string -> Stream    (* the backend, by prompt *)
}.

(** ** Engine state and suspension points *)

(** The continuations of [handleSend] at its [await]s and its [setTimeout]. *)
Inductive Task :=
| AfterScan (userMsg : string) (relevant : list Chunk.t)     (* line 445 *)
| AfterPause (userMsg : string) (relevant : list Chunk.t)    (* line 455 *)
| AwaitStream (assistantMsgId fullText : string) (response : Stream)
                                                             (* lines 480, 488 *)
| OfflineNotice.                                             (* line 502 *)

Record State := {
  now : N;                          (* Date.now() *)
  history : History;
  isProcessing : bool;
  timers : list (N * Task)          (* pending wake-ups, earliest first *)
}.

(** Timers fire in order of due time, equal due times in order of creation. *)
Fixpoint schedule (due : N) (k : Task) (ts : list (N * Task)) : list (N * Task) :=
  match ts with
  | [] => [(due, k)]
  | (d, k') :: rest =>
      if (due <? d)%N then (due, k) :: ts else (d, k') :: schedule due k rest
  end.

Definition set_history (h : History) (s : State) : State :=
  {| now := now s; history := h; isProcessing := isProcessing s; timers := timers s |}.

Definition setIsProcessing (b : bool) (s : State) : State :=
  {| now := now s; history := history s; isProcessing := b; timers := timers s |}.

Definition setTimeout (k : Task) (delay : N) (s : State) : State :=
  {| now := now s; history := history s; isProcessing := isProcessing s;
     timers := schedule (now s + delay)%N k (timers s) |}.

(** Lines 425-445: the synchronous part of [handleSend], up to the first
    [await].  [input] is the text field's value at submission; the handler
    is rebuilt on every render, so its guard reads the current flag. *)
Definition handleSend (env : Env) (input : string) (s : State) : State :=
  if negb (JS.truthy (JS.trim input)) || isProcessing s then s
  else
    let userMsg := input in
    let msgId := JS.of_N (now s) in
    let s := set_history (push (user_message msgId userMsg (now s)) (history s)) s in
    let s := setIsProcessing true s in
    let s := set_history (push (scanning_notice msgId (now s)) (history s)) s in
    let relevant := relevantChunks (memory env) userMsg in
    setTimeout (AfterScan userMsg relevant) 600 s.

(** Lines 460-505 and the [finally] block: step 2 of the handler up to its
    next suspension. *)
Definition respond (env : Env) (userMsg : string) (relevant : list Chunk.t)
    (s : State) : State :=
  if JS.defined_truthy (API_KEY env) then
    let assistantMsgId := "ai-" ++ JS.of_N (now s) in
    let s := set_history (push (streaming_message assistantMsgId (now s)) (history s)) s in
    let response := generateContentStream env (prompt relevant userMsg) in
    setTimeout (AwaitStream assistantMsgId "" response) (latency response) s
  else
    setIsProcessing false (setTimeout OfflineNotice 500 s).

(** Resuming a continuation at the current clock reading. *)
Definition resume (env : Env) (k : Task) (s : State) : State :=
  match k with
  | AfterScan userMsg relevant =>
      if 0 <? List.length relevant then
        setTimeout (AfterPause userMsg relevant) 400
          (set_history (report_count (List.length relevant) (history s)) s)
      else
        respond env userMsg relevant (set_history (drop_system (history s)) s)
  | AfterPause userMsg relevant => respond env userMsg relevant s
  | AwaitStream assistantMsgId fullText response =>
      match response with
      | Yield _ text rest =>
          let fullText := fullText ++ text in
          setTimeout (AwaitStream assistantMsgId fullText rest) (latency rest)
            (set_history (set_content assistantMsgId fullText (history s)) s)
      | Done _ =>
          setIsProcessing false
            (set_history (stop_streaming assistantMsgId (history s)) s)
      | Fault _ =>
          setIsProcessing false
            (set_history (push (error_notice (now s)) (history s)) s)
      | YieldGetter _ _ _ =>
          setIsProcessing false
            (set_history (push (error_notice (now s)) (history s)) s)
      end
  | OfflineNotice => set_history (push (offline_notice (now s)) (history s)) s
  end.

(** One turn of the event loop: the earliest timer fires. *)
Definition tick (env : Env) (s : State) : option State :=
  match timers s with
  | [] => None
  | (due, k) :: rest =>
      Some (resume env k {| now := due; history := history s;
                            isProcessing := isProcessing s; timers := rest |})
  end.

(** [n] turns of the event loop, stopping early when no timer is left. *)
Fixpoint run (n : nat) (env : Env) (s : State) : State :=
  match n with
  | O => s
  | S n' => match tick env s with Some s' => run n' env s' | None => s end
  end.

(** Let the clock reach [t]: every timer due by then fires first. *)
Fixpoint settle (fuel : nat) (env : Env) (t : N) (s : State) : State :=
  match fuel with
  | O => s
  | S fuel' =>
      match timers s with
      | (due, _) :: _ =>
          if (due <=? t)%N
          then match tick env s with Some s' => settle fuel' env t s' | None => s end
          else {| now := t; history := history s;
                  isProcessing := isProcessing s; timers := timers s |}
      | [] => {| now := t; history := history s;
                 isProcessing := isProcessing s; timers := [] |}
      end
  end.

(** Submit [input] at clock reading [t]. *)
Definition submit_at (fuel : nat) (env : Env) (t : N) (input : string) (s : State) : State :=
  handleSend env input (settle fuel env t s).

(** A session: timed submissions, then the loop runs until idle. *)
Fixpoint play (fuel : nat) (env : Env) (subs : list (N * string)) (s : State) : State :=
  match subs with
  | [] => run fuel env s
  | (t, input) :: rest => play fuel env rest (submit_at fuel env t input s)
  end.

(** The state [CommandView] mounts with (lines 410-418). *)
Definition init_message (t : N) : Message.t :=
  Message.mk "init" assistant
    ("E.A./SYSTEM v4.2 Connected." ++ JS.nl ++ "Memory Core: Active (21,622 records)"
     ++ JS.nl ++ JS.nl ++ "Awaiting directive.")
    t None.

Definition mount (t : N) : State :=
  {| now := t; history := [init_message t]; isProcessing := false; timers := [] |}.

(** A state with nothing in flight. *)
Definition idle (s : State) : Prop := isProcessing s = false /\ timers s = [].

(** Two concrete environments over [MOCK_MEMORY]. *)
Definition offline_env : Env :=
  {| API_KEY := None; memory := MOCK_MEMORY; generateContentStream := fun _ => Done 0 |}.

Definition online_env (response : Stream) : Env :=
  {| API_KEY := Some "key"; memory := MOCK_MEMORY;
     generateContentStream := fun _ => response |}.

(** ** Notions used in the statements *)

(** The matching rule in the words of the specification (section 4.1), to
    compare [chunk_matches] with: the body contains the directive, or a tag
    is contained in the directive, both regardless of case. *)
Definition spec_matches (directive : string) (c : Chunk.t) : bool :=
  JS.includes (JS.toLowerCase (Chunk.content c)) (JS.toLowerCase directive)
  || existsb (fun t => JS.includes (JS.toLowerCase directive) (JS.toLowerCase t))
       (Chunk.tags c).

Definition spec_select (store : list Chunk.t) (directive : string) : list Chunk.t :=
  filter (spec_matches directive) store.


(** The fields of a fragment that reach the context block. *)
Definition rendered_fields (c : Chunk.t) : string * Source * string :=
  (Chunk.id c, Chunk.source c, Chunk.content c).

(** [m.role !== 'system'] *)
Definition not_system (m : Message.t) : Prop := is_system m = false.

(** Tasks of a pipeline whose scan has resolved. *)
Definition late_task (dk : N * Task) : Prop :=
  match snd dk with
  | AfterScan _ _ => False
  | AwaitStream i _ _ => exists x, i = "ai-" ++ x
  | AfterPause _ _ | OfflineNotice => True
  end.

Definition late (s : State) : Prop := Forall late_task (timers s).

(** [fullText] after the given increments, starting from the empty text. *)
Definition concatenation (incs : list string) : string :=
  fold_right String.append "" incs.

(** The stream that is left once [k] increments have been consumed. *)
Fixpoint after (k : nat) (r : Stream) : Stream :=
  match k, r with
  | S k', Yield _ _ rest => after k' rest
  | _, _ => r
  end.

(** Turns of the loop until step 2 of the handler starts: the scan delay,
    and the pause after a reported count. *)
Definition scan_turns (relevant : list Chunk.t) : nat :=
  match relevant with [] => 1 | _ :: _ => 2 end.

(** The clock reading at which step 2 starts, for a submission at [t]. *)
Definition scan_time (t : N) (relevant : list Chunk.t) : N :=
  match relevant with [] => (t + 600)%N | _ :: _ => (t + 600 + 400)%N end.

(** The history once the scan has resolved. *)
Definition scanned (h : History) (input : string) (t : N) (relevant : list Chunk.t)
  : History :=
  match relevant with
  | [] => (drop_system h ++ [user_message (JS.of_N t) input t])%list
  | _ :: _ =>
      (h ++ [user_message (JS.of_N t) input t;
             Message.with_content (scanning_notice (JS.of_N t) t)
               (identified_text (List.length relevant))])%list
  end.

(** What the engine can be in: mounted, then any number of submissions,
    timer turns and clock readings. *)
Inductive reachable (env : Env) : State -> Prop :=
| reach_mount (t : N) : reachable env (mount t)
| reach_submit (input : string) (s : State) :
    reachable env s -> reachable env (handleSend env input s)
| reach_tick (s s' : State) :
    reachable env s -> tick env s = Some s' -> reachable env s'
| reach_clock (t : N) (s : State) :
    reachable env s ->
    reachable env {| now := t; history := history s;
                     isProcessing := isProcessing s; timers := timers s |}.

Definition in_flight (s : State) : Prop :=
  isProcessing s = true /\
  exists d k, timers s = [(d, k)] /\ k <> OfflineNotice.

(** ** Notions used for the engine as a whole *)

(** A text with nothing but white space. *)
Fixpoint blank (s : string) : bool :=
  match s with
  | EmptyString => true
  | String c s' => JS.is_space c && blank s'
  end.

Definition is_user (m : Message.t) : bool := Role_eqb (Message.role m) user.

(** The directives of a history, in order. *)
Definition users (h : History) : History := filter is_user h.

Definition is_offline_task (k : Task) : bool :=
  match k with OfflineNotice => true | _ => false end.

(** The pending continuations that belong to a running [handleSend], the
    detached fallback timers left aside. *)
Definition in_pipeline (ts : list (N * Task)) : nat :=
  List.length (filter (fun dk => negb (is_offline_task (snd dk))) ts).

(** Turns of the loop that step 2 of the handler still needs. *)
Definition respond_turns (env : Env) (userMsg : string) (relevant : list Chunk.t) : nat :=
  if JS.defined_truthy (API_KEY env)
  then 1 + List.length (increments (generateContentStream env (prompt relevant userMsg)))
  else 1.

(** An upper bound on the turns a continuation and its successors take. *)
Definition turns_left (env : Env) (k : Task) : nat :=
  match k with
  | AfterScan userMsg relevant => 2 + respond_turns env userMsg relevant
  | AfterPause userMsg relevant => 1 + respond_turns env userMsg relevant
  | AwaitStream _ _ response => 1 + List.length (increments response)
  | OfflineNotice => 1
  end.

Definition pending_turns (env : Env) (ts : list (N * Task)) : nat :=
  list_sum (map (fun dk => turns_left env (snd dk)) ts).

(** The identifiers the streaming updates select by. *)
Definition ai_task (dk : N * Task) : Prop :=
  match snd dk with
  | AwaitStream i _ _ => exists x, i = "ai-" ++ x
  | _ => True
  end.

(** A streaming message is one that a pending stream will still write to. *)
Definition streams_owned (s : State) : Prop :=
  forall m, In m (history s) -> Message.streaming m = true ->
            exists d fullText response,
              In (d, AwaitStream (Message.id m) fullText response) (timers s).

(** A directive keeps the clock-derived identifier it was given. *)
Definition user_ids (h : History) : Prop :=
  Forall (fun m => is_user m = true -> exists n, Message.id m = JS.of_N n) h.

(** [isProcessing] stands for exactly one pending continuation of the
    handler. *)
Definition serial (s : State) : Prop :=
  in_pipeline (timers s) = if isProcessing s then 1 else 0.

(** The history shows the error notice of some [catch]. *)
Definition apologised (h : History) : Prop := exists t, In (error_notice t) h.

(** Every flag is owned by a pending stream, unless an exception was
    reported. *)
Definition flags_accounted (s : State) : Prop :=
  apologised (history s) \/ streams_owned s.

(** The identifiers the engine hands out do not collide across kinds. *)
Definition ids_kept (s : State) : Prop :=
  Forall ai_task (timers s) /\ user_ids (history s).

Definition no_stream_task (dk : N * Task) : Prop :=
  match snd dk with AwaitStream _ _ _ => False | _ => True end.

(** The messages of an engine without API key: never flagged, and the
    replies are the greeting and the offline notice. *)
Definition canned (m : Message.t) : Prop :=
  Message.isStreaming m = None /\
  (Message.role m = assistant ->
   (exists t, m = init_message t) \/ (exists t, m = offline_notice t)).

(** Identifier and role of the messages other than system notices, in
    history order. *)
Definition kept_ids (h : History) : list (string * Role) :=
  map (fun m => (Message.id m, Message.role m)) (drop_system h).

(** ** Notions used for the scan *)

(** Texts of the ASCII range. *)
Fixpoint ascii_text (s : string) : bool :=
  match s with
  | EmptyString => true
  | String c s' => (nat_of_ascii c <? 128) && ascii_text s'
  end.

(** Stores whose bodies and tags are ASCII texts. *)
Definition ascii_chunk (c : Chunk.t) : Prop :=
  ascii_text (Chunk.content c) = true /\
  Forall (fun t => ascii_text t = true) (Chunk.tags c).

Definition ascii_store (store : list Chunk.t) : Prop := Forall ascii_chunk store.

Definition is_upper (c : ascii) : bool :=
  let n := nat_of_ascii c in (65 <=? n) && (n <=? 90).

Fixpoint has_upper (s : string) : bool :=
  match s with
  | EmptyString => false
  | String c s' => is_upper c || has_upper s'
  end.

(** A store whose tags are all written without the letters A to Z. *)
Definition lowercase_tags (store : list Chunk.t) : Prop :=
  Forall (fun c => Forall (fun t => has_upper t = false) (Chunk.tags c)) store.

(** ** The application shell (lines 614-633) *)

Inductive Pane := OverviewView | CommandView | Restricted.

(** The three conditional children of the main column, in source order. *)
Definition App_panes (activeView : string) : list Pane :=
  ((if (activeView =? "overview")%string then [OverviewView] else [])
   ++ (if (activeView =? "command")%string then [CommandView] else [])
   ++ (if negb (existsb (String.eqb activeView) ["overview"; "command"])
       then [Restricted] else []))%list.

(** The identifiers of the sidebar's menu (lines 103-110). *)
Definition menuItems : list string :=
  ["overview"; "schedule"; "comms"; "tasks"; "command"; "system"].

(** ** The clock of the overview (line 259) *)

(** [n] characters of [pad] repeated, continuing from [cur]. *)
Fixpoint fill (n : nat) (cur pad : string) : string :=
  match n with
  | O => EmptyString
  | S n' =>
      match cur with
      | String c cur' => String c (fill n' cur' pad)
      | EmptyString =>
          match pad with
          | String c pad' => String c (fill n' pad' pad)
          | EmptyString => EmptyString
          end
      end
  end.

(** [s.padStart(targetLength, padString)]. *)
Definition padStart (s : string) (targetLength : nat) (padString : string) : string :=
  if targetLength <=? String.length s then s
  else fill (targetLength - String.length s) padString padString ++ s.

(** [time.getSeconds().toString().padStart(2, '0')]. *)
Definition seconds_text (seconds : nat) : string :=
  padStart (JS.of_nat seconds) 2 "0".

(** The fixed text of [systemPrompt] before and after the context. *)
Definition prompt_head : string :=
  "You are E.A./SYSTEM. A hyper-efficient executive operating system." ++ JS.nl
  ++ indent8 ++ "Context: ".

Definition prompt_tail : string :=
  JS.nl
  ++ indent8 ++ JS.nl
  ++ indent8 ++ "Directives:" ++ JS.nl
  ++ indent8 ++ "- Output strictly in formatted text." ++ JS.nl
  ++ indent8 ++ "- Be concise, authoritative, and data-driven." ++ JS.nl
  ++ indent8 ++ "- If referencing context, use [REF] markers." ++ JS.nl
  ++ indent8.

(** ** The segmented progress bar (lines 216-225) *)

(** A small non-negative integer as a JavaScript number (binary64). *)
Definition number (n : nat) : PrimFloat.float :=
  PrimFloat.of_uint63 (Uint63.of_nat n).

(** The twenty segments, [true] for a lit one: [i < (value / 5)]. *)
Definition SegmentedProgress (value : PrimFloat.float) : list bool :=
  map (fun i => PrimFloat.ltb (number i) (PrimFloat.div value (number 5))) (seq 0 20).

(** * Properties *)

(** ** String primitives *)

Lemma append_assoc (a b c : string) : (a ++ b) ++ c = a ++ (b ++ c).
Proof. induction a as [|x a IH]; simpl; [reflexivity | now rewrite IH]. Qed.

Lemma append_empty_r (a : string) : a ++ "" = a.
Proof. induction a as [|x a IH]; simpl; [reflexivity | now rewrite IH]. Qed.

Lemma prefix_iff (p s : string) :
  String.prefix p s = true <-> exists b, s = p ++ b.
Proof.
  revert s; induction p as [|x p IH]; intros s; simpl.
  - destruct s; split; intros; eauto.
  - destruct s as [|y s]; simpl.
    + split; [discriminate | intros [b Hb]; discriminate].
    + destruct (ascii_dec x y) as [->|Hxy].
      * rewrite (IH s). split; intros [b Hb]; exists b; [now rewrite Hb | now inversion Hb].
      * split; [discriminate | intros [b Hb]; inversion Hb; congruence].
Qed.

(** [includes] decides the substring relation. *)
Lemma includes_iff (s sub : string) :
  JS.includes s sub = true <-> exists a b, s = a ++ sub ++ b.
Proof.
  induction s as [|x s IH]; cbn [JS.includes]; rewrite orb_true_iff.
  - rewrite prefix_iff. split.
    + intros [[b Hb]|H]; [exists "", b; exact Hb | discriminate].
    + intros [a [b H]]. left. destruct a; [exists b; exact H | discriminate].
  - rewrite prefix_iff, IH. split.
    + intros [[b Hb]|[a [b H]]].
      * exists "", b. exact Hb.
      * exists (String x a), b. simpl. now rewrite H.
    + intros [a [b H]]. destruct a as [|y a]; simpl in H.
      * left. now exists b.
      * right. inversion H. now exists a, b.
Qed.

Lemma lower_char_idem (c : ascii) : JS.lower_char (JS.lower_char c) = JS.lower_char c.
Proof. destruct c as [[] [] [] [] [] [] [] []]; reflexivity. Qed.

Lemma toLowerCase_app (a b : string) :
  JS.toLowerCase (a ++ b) = JS.toLowerCase a ++ JS.toLowerCase b.
Proof.
  unfold JS.toLowerCase. induction a as [|x a IH]; simpl; [reflexivity | now rewrite IH].
Qed.

Lemma toLowerCase_idem (s : string) :
  JS.toLowerCase (JS.toLowerCase s) = JS.toLowerCase s.
Proof.
  unfold JS.toLowerCase. induction s as [|x s IH]; simpl;
    [reflexivity | now rewrite lower_char_idem, IH].
Qed.

Lemma append_inj_length (a a' b b' : string) :
  String.length a = String.length a' -> a ++ b = a' ++ b' -> a = a' /\ b = b'.
Proof.
  revert a'; induction a as [|x a IH]; intros [|y a'] Hl H; simpl in *;
    try discriminate; [now split|].
  inversion H; subst. destruct (IH a') as [-> ->]; [lia | assumption | now split].
Qed.

Lemma toLowerCase_length (s : string) :
  String.length (JS.toLowerCase s) = String.length s.
Proof.
  unfold JS.toLowerCase. induction s as [|x s IH]; simpl; [reflexivity | now rewrite IH].
Qed.

(** A piece of a lower-cased text is its own lower-casing. *)
Lemma lowered_piece (d a t b : string) :
  JS.toLowerCase d = a ++ t ++ b -> JS.toLowerCase t = t.
Proof.
  intros H. pose proof (toLowerCase_idem d) as Hi.
  rewrite H in Hi. rewrite !toLowerCase_app in Hi.
  apply append_inj_length in Hi; [|apply toLowerCase_length].
  destruct Hi as [_ Hi].
  apply append_inj_length in Hi; [|apply toLowerCase_length].
  apply Hi.
Qed.

(** ** Relevance scan *)

(** What the scan selects: store members whose lower-cased body contains
    the lower-cased directive, or one of whose tags, as stored, occurs in
    the lower-cased directive. *)
Lemma relevantChunks_In (store : list Chunk.t) (userMsg : string) (c : Chunk.t) :
  In c (relevantChunks store userMsg) <->
  In c store /\
  ((exists a b, JS.toLowerCase (Chunk.content c) = a ++ JS.toLowerCase userMsg ++ b) \/
   (exists t a b, In t (Chunk.tags c) /\ JS.toLowerCase userMsg = a ++ t ++ b)).
Proof.
  unfold relevantChunks, chunk_matches.
  rewrite filter_In, orb_true_iff, includes_iff, existsb_exists.
  split; intros [Hin H]; split; try assumption.
  - destruct H as [H|[t [Ht H]]]; [left; assumption|].
    right. apply includes_iff in H. destruct H as [a [b H]]. now exists t, a, b.
  - destruct H as [H|[t [a [b [Ht H]]]]]; [left; assumption|].
    right. exists t. split; [assumption|]. apply includes_iff. now exists a, b.
Qed.

(** Store order is kept: the scan of a concatenation is the concatenation
    of the scans. *)
Lemma relevantChunks_app (s1 s2 : list Chunk.t) (userMsg : string) :
  relevantChunks (s1 ++ s2) userMsg
  = (relevantChunks s1 userMsg ++ relevantChunks s2 userMsg)%list.
Proof. apply filter_app. Qed.

(** Every selected fragment matches under the spec's rule. *)
Lemma chunk_matches_spec_matches (userMsg : string) (c : Chunk.t) :
  chunk_matches userMsg c = true -> spec_matches userMsg c = true.
Proof.
  unfold chunk_matches, spec_matches. rewrite !orb_true_iff.
  intros [H|H]; [left; assumption|right].
  rewrite existsb_exists in *. destruct H as [t [Ht H]].
  exists t. split; [assumption|].
  pose proof H as H'. apply includes_iff in H'. destruct H' as [a [b H']].
  now rewrite (lowered_piece _ _ _ _ H').
Qed.

(** C3, the part that holds: nothing is selected that the rule excludes,
    and a store without a match gives the empty array. *)
Lemma relevantChunks_sound (store : list Chunk.t) (userMsg : string) (c : Chunk.t) :
  In c (relevantChunks store userMsg) -> In c (spec_select store userMsg).
Proof.
  unfold relevantChunks, spec_select. rewrite !filter_In.
  intros [Hin H]. split; [assumption | now apply chunk_matches_spec_matches].
Qed.

(** C3: on [MOCK_MEMORY], the directive of the quick-command button
    "ANALYZE Q4 METRICS" contains the tag "Q4" of fragment chk_3, so the
    matching rule selects chk_3; the scan compares the lower-cased
    directive with the tag as stored and selects nothing. *)
Theorem C3_uppercase_tag_never_matches :
  map Chunk.id (spec_select MOCK_MEMORY "ANALYZE Q4 METRICS") = ["chk_3"] /\
  relevantChunks MOCK_MEMORY "ANALYZE Q4 METRICS" = [].
Proof. split; vm_compute; reflexivity. Qed.

(** ** Context assembly *)


Lemma render_chunk_truthy (c : Chunk.t) : JS.truthy (render_chunk c) = true.
Proof. reflexivity. Qed.

Lemma context_cons_truthy (c : Chunk.t) (cs : list Chunk.t) :
  JS.truthy (context (c :: cs)) = true.
Proof. unfold context, JS.join. simpl. destruct (map render_chunk cs); reflexivity. Qed.


(** C9: assembling the context is a function of the ordered fragments, and
    only of their identifier, provenance and body: two runs over sequences
    that agree on these yield the same block and the same prompt (in
    particular two runs over the same sequence). *)
Theorem C9_context_deterministic (xs ys : list Chunk.t) (userMsg : string) :
  map rendered_fields xs = map rendered_fields ys ->
  context xs = context ys /\ prompt xs userMsg = prompt ys userMsg.
Proof.
  intros H.
  assert (Hr : map render_chunk xs = map render_chunk ys).
  { revert ys H. induction xs as [|x xs IH]; intros [|y ys] H; simpl in *;
      try discriminate; [reflexivity|].
    inversion H as [[Hid Hsrc Hc Hrest]].
    unfold render_chunk at 1 3. rewrite Hid, Hsrc, Hc. f_equal. now apply IH. }
  assert (Hc : context xs = context ys) by (unfold context; now rewrite Hr).
  split; [assumption|]. unfold prompt, systemPrompt. now rewrite Hc.
Qed.

Lemma C9_context_deterministic_witness :
  let xs := relevantChunks MOCK_MEMORY "budget" in
  context xs = context xs /\ prompt xs "budget" = prompt xs "budget".
Proof. exact (C9_context_deterministic _ _ "budget" eq_refl). Defined.

(** ** History updates *)

Lemma report_count_last (n : nat) (h : History) (m : Message.t) :
  is_system m = true ->
  report_count n (h ++ [m])%list
  = (h ++ [Message.with_content m (identified_text n)])%list.
Proof.
  intros Hm. unfold report_count. rewrite rev_unit, Hm. now rewrite rev_involutive.
Qed.

Lemma report_count_other (n : nat) (h : History) (m : Message.t) :
  is_system m = false -> report_count n (h ++ [m])%list = (h ++ [m])%list.
Proof. intros Hm. unfold report_count. now rewrite rev_unit, Hm. Qed.

Lemma drop_system_app (a b : History) :
  drop_system (a ++ b) = (drop_system a ++ drop_system b)%list.
Proof. apply filter_app. Qed.

Lemma drop_system_clean (h : History) : Forall not_system (drop_system h).
Proof.
  apply Forall_forall. intros m Hm. apply filter_In in Hm.
  destruct Hm as [_ Hm]. unfold not_system. now destruct (is_system m).
Qed.

Lemma drop_system_id (h : History) : Forall not_system h -> drop_system h = h.
Proof.
  induction 1 as [|m h Hm _ IH]; [reflexivity|].
  unfold drop_system in *. simpl. rewrite Hm. simpl. now rewrite IH.
Qed.

Lemma set_content_roles (i t : string) (h : History) :
  Forall not_system h -> Forall not_system (set_content i t h).
Proof.
  intros H. unfold set_content. apply Forall_map. revert H. apply Forall_impl.
  intros m Hm. now destruct (Message.id m =? i)%string.
Qed.

Lemma stop_streaming_roles (i : string) (h : History) :
  Forall not_system h -> Forall not_system (stop_streaming i h).
Proof.
  intros H. unfold stop_streaming. apply Forall_map. revert H. apply Forall_impl.
  intros m Hm. now destruct (Message.id m =? i)%string.
Qed.

Lemma set_content_nth (i t : string) (h : History) (n : nat) (m : Message.t) :
  nth_error h n = Some m -> Message.id m = i ->
  nth_error (set_content i t h) n = Some (Message.with_content m t).
Proof.
  intros Hn Hi. unfold set_content. rewrite nth_error_map, Hn. simpl.
  now rewrite Hi, String.eqb_refl.
Qed.

Lemma stop_streaming_nth (i : string) (h : History) (n : nat) (m : Message.t) :
  nth_error h n = Some m -> Message.id m = i ->
  nth_error (stop_streaming i h) n = Some (Message.with_isStreaming m false).
Proof.
  intros Hn Hi. unfold stop_streaming. rewrite nth_error_map, Hn. simpl.
  now rewrite Hi, String.eqb_refl.
Qed.

Lemma set_content_keeps (i t : string) (h : History) (m : Message.t) :
  (Message.id m =? i)%string = false -> In m h -> In m (set_content i t h).
Proof.
  intros Hi Hin. unfold set_content. apply in_map_iff. exists m. now rewrite Hi.
Qed.

Lemma stop_streaming_keeps (i : string) (h : History) (m : Message.t) :
  (Message.id m =? i)%string = false -> In m h -> In m (stop_streaming i h).
Proof.
  intros Hi Hin. unfold stop_streaming. apply in_map_iff. exists m. now rewrite Hi.
Qed.

(** ** The event loop *)

Lemma schedule_Forall (P : N * Task -> Prop) (d : N) (k : Task) (ts : list (N * Task)) :
  P (d, k) -> Forall P ts -> Forall P (schedule d k ts).
Proof.
  intros Hk. induction 1 as [|[d' k'] ts Hx Hts IH]; simpl.
  - now constructor.
  - destruct (d <? d')%N; repeat constructor; assumption.
Qed.

Lemma tick_none (env : Env) (s : State) : timers s = [] -> tick env s = None.
Proof. unfold tick. now intros ->. Qed.

Lemma run_idle (n : nat) (env : Env) (s : State) : timers s = [] -> run n env s = s.
Proof. intros H. destruct n; simpl; [reflexivity | now rewrite tick_none]. Qed.

Lemma run_add (a b : nat) (env : Env) (s : State) :
  run (a + b) env s = run b env (run a env s).
Proof.
  revert s. induction a as [|a IH]; intros s; simpl; [reflexivity|].
  destruct (tick env s) as [s'|] eqn:Ht; [apply IH|].
  unfold tick in Ht. destruct (timers s) as [|[d k] ts] eqn:E; [|discriminate].
  symmetry. now apply run_idle.
Qed.

(** A property kept by every turn of the loop holds along every run. *)
Lemma run_invariant (P : State -> Prop) (env : Env) :
  (forall s s', P s -> tick env s = Some s' -> P s') ->
  forall n s, P s -> P (run n env s).
Proof.
  intros Hstep. induction n as [|n IH]; intros s Hs; simpl; [assumption|].
  destruct (tick env s) as [s'|] eqn:Ht; [|assumption].
  apply IH. now apply (Hstep s).
Qed.

(** The guard of line 427. *)
Lemma handleSend_busy (env : Env) (input : string) (s : State) :
  isProcessing s = true -> handleSend env input s = s.
Proof. intros H. unfold handleSend. now rewrite H, orb_true_r. Qed.

Lemma handleSend_blank (env : Env) (input : string) (s : State) :
  JS.truthy (JS.trim input) = false -> handleSend env input s = s.
Proof. intros H. unfold handleSend. now rewrite H. Qed.

Lemma handleSend_accepted (env : Env) (input : string) (s : State) :
  idle s -> JS.truthy (JS.trim input) = true ->
  handleSend env input s
  = {| now := now s;
       history := (history s ++ [user_message (JS.of_N (now s)) input (now s);
                                 scanning_notice (JS.of_N (now s)) (now s)])%list;
       isProcessing := true;
       timers := [((now s + 600)%N,
                   AfterScan input (relevantChunks (memory env) input))] |}.
Proof.
  intros [Hp Ht] Hin. unfold handleSend. rewrite Hin, Hp. simpl.
  unfold setTimeout, push. simpl. rewrite Ht. simpl.
  now rewrite <- app_assoc.
Qed.

Ltac break_tick Hl Ht :=
  unfold tick in Ht;
  match type of Ht with
  | match timers ?s with _ => _ end = _ =>
      let d := fresh "due" in
      let k := fresh "k" in
      let rest := fresh "rest" in
      let Hk := fresh "Hk" in
      let Hrest := fresh "Hrest" in
      unfold late in Hl;
      destruct (timers s) as [|[d k] rest]; [discriminate|];
      inversion Ht; subst; clear Ht;
      apply Forall_cons_iff in Hl; destruct Hl as [Hk Hrest];
      unfold late_task in Hk; simpl in Hk
  end.

Lemma tick_late (env : Env) (s s' : State) :
  late s -> tick env s = Some s' -> late s'.
Proof.
  intros Hl Ht. break_tick Hl Ht. unfold late.
  destruct k as [u r|u r|i ft [d t rest'|d|d|d g rest']|]; simpl; try contradiction;
    try assumption.
  - unfold respond. destruct (JS.defined_truthy (API_KEY env)); simpl.
    + apply schedule_Forall; [|assumption]. unfold late_task. simpl. eauto.
    + apply schedule_Forall; [exact I | assumption].
  - apply schedule_Forall; assumption.
Qed.

Lemma tick_no_system (env : Env) (s s' : State) :
  late s -> Forall not_system (history s) -> tick env s = Some s' ->
  Forall not_system (history s').
Proof.
  intros Hl Hh Ht. break_tick Hl Ht.
  destruct k as [u r|u r|i ft [d t rest'|d|d|d g rest']|]; simpl; try contradiction.
  - unfold respond. destruct (JS.defined_truthy (API_KEY env)); simpl; [|assumption].
    apply Forall_app. split; [assumption | now repeat constructor].
  - now apply set_content_roles.
  - now apply stop_streaming_roles.
  - apply Forall_app. split; [assumption | now repeat constructor].
  - apply Forall_app. split; [assumption | now repeat constructor].
  - apply Forall_app. split; [assumption | now repeat constructor].
Qed.

Lemma tick_keeps_notice (env : Env) (m : Message.t) (x : string) (s s' : State) :
  Message.id m = "sys-" ++ x ->
  late s -> In m (history s) -> tick env s = Some s' -> In m (history s').
Proof.
  intros Hm Hl Hh Ht. break_tick Hl Ht.
  destruct k as [u r|u r|i ft [d t rest'|d|d|d g rest']|]; simpl; try contradiction.
  - unfold respond. destruct (JS.defined_truthy (API_KEY env)); simpl; [|assumption].
    apply in_or_app. now left.
  - destruct Hk as [y ->]. apply set_content_keeps; [now rewrite Hm | assumption].
  - destruct Hk as [y ->]. apply stop_streaming_keeps; [now rewrite Hm | assumption].
  - apply in_or_app. now left.
  - apply in_or_app. now left.
  - apply in_or_app. now left.
Qed.

(** ** The streaming loop *)

Lemma concatenation_snoc (incs : list string) (t : string) :
  concatenation (incs ++ [t]) = concatenation incs ++ t.
Proof.
  unfold concatenation. induction incs as [|x incs IH]; simpl.
  - apply append_empty_r.
  - now rewrite IH, append_assoc.
Qed.

Lemma with_content_own (m : Message.t) : Message.with_content m (Message.content m) = m.
Proof. now destruct m. Qed.

(** While increments arrive, the message with the assistant's identifier
    carries the text accumulated so far and nothing else changes. *)
Lemma stream_progress (env : Env) (i : string) (pos : nat) :
  forall (k : nat) (r : Stream) (fullText : string) (s : State) (m : Message.t) (due : N),
    timers s = [(due, AwaitStream i fullText r)] ->
    nth_error (history s) pos = Some m ->
    Message.id m = i -> Message.content m = fullText ->
    k <= List.length (increments r) ->
    let s' := run k env s in
    nth_error (history s') pos
    = Some (Message.with_content m (fullText ++ concatenation (firstn k (increments r)))) /\
    (exists due', timers s'
                  = [(due', AwaitStream i (fullText ++ concatenation (firstn k (increments r)))
                              (after k r))]) /\
    isProcessing s' = isProcessing s /\
    List.length (history s') = List.length (history s).
Proof.
  induction k as [|k IH]; intros r fullText s m due Ht Hn Hi Hc Hk; simpl.
  - subst fullText. rewrite append_empty_r, with_content_own.
    repeat split; try assumption. exists due. rewrite Ht. now destruct r.
  - destruct r as [d t rest|d|d|d g rest]; simpl in Hk; try lia.
    unfold tick. rewrite Ht. cbn [resume].
    set (s1 := setTimeout _ _ _).
    specialize (IH rest (fullText ++ t) s1 (Message.with_content m (fullText ++ t))
                  (due + latency rest)%N).
    destruct IH as [H1 [H2 [H3 H4]]].
    + reflexivity.
    + subst s1. simpl. now apply set_content_nth.
    + exact Hi.
    + reflexivity.
    + lia.
    + cbn [increments firstn after]. unfold concatenation at 1 2. cbn [fold_right].
      fold (concatenation (firstn k (increments rest))).
      rewrite <- append_assoc. repeat split.
      * exact H1.
      * exact H2.
      * rewrite H3. reflexivity.
      * rewrite H4. subst s1. simpl. unfold set_content. apply length_map.
Qed.

Lemma after_all (r : Stream) :
  match after (List.length (increments r)) r with
  | Yield _ _ _ => False
  | Done _ => faulted r = false
  | Fault _ | YieldGetter _ _ _ => faulted r = true
  end.
Proof.
  induction r as [d t rest IH|d|d|d g rest _]; simpl;
    [exact IH | reflexivity | reflexivity | reflexivity].
Qed.

Lemma firstn_increments (r : Stream) :
  firstn (List.length (increments r)) (increments r) = increments r.
Proof. apply firstn_all. Qed.

(** The turn after the last increment: completion clears the flag, a fault
    appends the error notice and leaves the flag as it is. *)
Lemma stream_end (env : Env) (i : string) (pos : nat)
    (r : Stream) (s : State) (m : Message.t) (due : N) :
  timers s = [(due, AwaitStream i "" r)] ->
  nth_error (history s) pos = Some m ->
  Message.id m = i -> Message.content m = "" ->
  let s' := run (S (List.length (increments r))) env s in
  let body := concatenation (increments r) in
  timers s' = [] /\ isProcessing s' = false /\
  if faulted r then
    exists h t, history s' = (h ++ [error_notice t])%list /\
                List.length h = List.length (history s) /\
                nth_error h pos = Some (Message.with_content m body)
  else
    List.length (history s') = List.length (history s) /\
    nth_error (history s') pos
    = Some (Message.with_isStreaming (Message.with_content m body) false).
Proof.
  intros Ht Hn Hi Hc.
  replace (S (List.length (increments r))) with (List.length (increments r) + 1) by lia.
  rewrite run_add.
  destruct (stream_progress env i pos (List.length (increments r)) r "" s m due
              Ht Hn Hi Hc (le_n _)) as [H1 [[due' H2] [H3 H4]]].
  rewrite firstn_increments in H1, H2. simpl in H1, H2.
  set (sk := run (List.length (increments r)) env s) in *.
  pose proof (after_all r) as Ha. simpl. unfold tick. rewrite H2.
  destruct (after (List.length (increments r)) r) as [d t rest|d|d|d g rest];
    [contradiction | | |]; rewrite Ha; cbn [resume]; simpl.
  - repeat split.
    + unfold stop_streaming. now rewrite length_map.
    + apply stop_streaming_nth; assumption.
  - repeat split. exists (history sk), due'. repeat split; assumption.
  - repeat split. exists (history sk), due'. repeat split; assumption.
Qed.

(** ** One pipeline from an idle engine *)

Lemma after_scan (env : Env) (input : string) (s : State) :
  idle s -> JS.truthy (JS.trim input) = true ->
  let relevant := relevantChunks (memory env) input in
  run (scan_turns relevant) env (handleSend env input s)
  = respond env input relevant
      {| now := scan_time (now s) relevant;
         history := scanned (history s) input (now s) relevant;
         isProcessing := true; timers := [] |}.
Proof.
  intros Hidle Hin relevant. rewrite (handleSend_accepted env input s Hidle Hin).
  fold relevant. destruct relevant as [|c cs] eqn:E; simpl.
  - unfold tick. simpl. unfold set_history. simpl.
    rewrite drop_system_app. reflexivity.
  - unfold tick. simpl.
    change (history s ++ [user_message (JS.of_N (now s)) input (now s);
                          scanning_notice (JS.of_N (now s)) (now s)])%list
      with (history s ++ [user_message (JS.of_N (now s)) input (now s)]
                      ++ [scanning_notice (JS.of_N (now s)) (now s)])%list.
    rewrite app_assoc, report_count_last by reflexivity.
    rewrite <- app_assoc. reflexivity.
Qed.

Lemma respond_offline (env : Env) (userMsg : string) (relevant : list Chunk.t)
    (s : State) :
  JS.defined_truthy (API_KEY env) = false -> timers s = [] ->
  respond env userMsg relevant s
  = {| now := now s; history := history s; isProcessing := false;
       timers := [((now s + 500)%N, OfflineNotice)] |}.
Proof.
  intros Hk Ht. unfold respond. rewrite Hk.
  unfold setIsProcessing, setTimeout. simpl. now rewrite Ht.
Qed.

Lemma respond_online (env : Env) (userMsg : string) (relevant : list Chunk.t)
    (s : State) :
  JS.defined_truthy (API_KEY env) = true -> timers s = [] ->
  let i := "ai-" ++ JS.of_N (now s) in
  let response := generateContentStream env (prompt relevant userMsg) in
  respond env userMsg relevant s
  = {| now := now s;
       history := (history s ++ [streaming_message i (now s)])%list;
       isProcessing := isProcessing s;
       timers := [((now s + latency response)%N, AwaitStream i "" response)] |}.
Proof.
  intros Hk Ht. unfold respond. rewrite Hk.
  unfold setTimeout, set_history, push. simpl. now rewrite Ht.
Qed.

Lemma respond_late (env : Env) (userMsg : string) (relevant : list Chunk.t) (s : State) :
  timers s = [] -> late (respond env userMsg relevant s).
Proof.
  intros Ht. destruct (JS.defined_truthy (API_KEY env)) eqn:Hk.
  - rewrite respond_online by assumption. repeat constructor.
    unfold late_task. simpl. eauto.
  - rewrite respond_offline by assumption. repeat constructor.
Qed.

(** Without a usable API key, from an idle engine: the turns of one
    directive, up to its fallback timer. *)
Lemma offline_from_idle (env : Env) (input : string) (s : State) :
  idle s -> JS.truthy (JS.trim input) = true ->
  JS.defined_truthy (API_KEY env) = false ->
  let relevant := relevantChunks (memory env) input in
  let s' := run (scan_turns relevant + 1) env (handleSend env input s) in
  let notice := offline_notice (scan_time (now s) relevant + 500)%N in
  idle s' /\
  history s' = (scanned (history s) input (now s) relevant ++ [notice])%list /\
  last (history s') (init_message 0) = notice /\
  Message.content notice = offline_text /\
  Message.role notice = assistant /\
  Message.streaming notice = false /\
  notice <> error_notice (Message.timestamp notice).
Proof.
  intros Hidle Hin Hk. cbv zeta.
  rewrite run_add, (after_scan env input s Hidle Hin).
  rewrite respond_offline by (assumption || reflexivity).
  simpl. unfold tick. simpl. unfold push.
  repeat split.
  - apply last_last.
  - discriminate.
Qed.

(** The history part of [respond] does not depend on what is pending. *)
Lemma respond_appends (env : Env) (userMsg : string) (relevant : list Chunk.t) (s : State) :
  exists tail, history (respond env userMsg relevant s) = (history s ++ tail)%list /\
               Forall not_system tail.
Proof.
  unfold respond. destruct (JS.defined_truthy (API_KEY env)); simpl.
  - eexists. split; [reflexivity | now repeat constructor].
  - exists []. split; [now rewrite app_nil_r | constructor].
Qed.

(** From an idle engine, a directive without a match leaves, one turn
    later, the earlier history without its system messages, then the
    directive. *)
Lemma zero_match_from_idle (env : Env) (input : string) (s : State) :
  idle s -> JS.truthy (JS.trim input) = true ->
  relevantChunks (memory env) input = [] ->
  exists tail,
    history (run 1 env (handleSend env input s))
    = (drop_system (history s) ++ user_message (JS.of_N (now s)) input (now s) :: tail)%list
    /\ Forall not_system tail.
Proof.
  intros Hidle Hin Hrel.
  pose proof (after_scan env input s Hidle Hin) as Hs. cbv zeta in Hs.
  rewrite Hrel in Hs. change (scan_turns []) with 1 in Hs. rewrite Hs.
  unfold scanned, scan_time.
  edestruct respond_appends as [tail [Hh Htail]]. rewrite Hh. simpl.
  rewrite <- app_assoc. now exists tail.
Qed.

(** An older notice goes with the current one. *)
Example zero_match_drops_older_notice :
  let s := play 50 offline_env [(1000%N, "budget")] (mount 0) in
  let s1 := run 1 offline_env (handleSend offline_env "status report" s) in
  map Message.id (history s) = ["init"; "1000"; "sys-1000"; "err"] /\
  map Message.id (history s1) = ["init"; "1000"; "err"; "2500"].
Proof. split; reflexivity. Qed.

(** C10: whenever the handler resumes after the scan delay with an empty
    selection, in whatever state the engine is, the history it leaves is
    the previous one with every system message deleted, older notices
    included, followed by what step 2 appends; the other messages are kept
    as they are and in their order. *)
Theorem C10_zero_match_drops_every_system_message (env : Env) (userMsg : string)
    (s : State) :
  let s' := resume env (AfterScan userMsg []) s in
  (exists tail, history s' = (drop_system (history s) ++ tail)%list /\
                Forall not_system tail) /\
  Forall not_system (history s') /\
  (forall m, In m (drop_system (history s)) <-> In m (history s) /\ not_system m) /\
  (forall a b : History, drop_system (a ++ b) = (drop_system a ++ drop_system b)%list) /\
  (forall m, is_system m = true -> drop_system [m] = []) /\
  (forall m, is_system m = false -> drop_system [m] = [m]).
Proof.
  cbv zeta. cbn [resume]. change (0 <? List.length (@nil Chunk.t)) with false. cbv iota.
  edestruct respond_appends as [tail [Hh Htail]]. rewrite Hh. simpl.
  refine (conj _ (conj _ (conj _ (conj _ (conj _ _))))).
  - now exists tail.
  - apply Forall_app. split; [apply drop_system_clean | assumption].
  - intros m. unfold drop_system, not_system. rewrite filter_In.
    now destruct (is_system m).
  - apply drop_system_app.
  - intros m Hm. unfold drop_system. simpl. now rewrite Hm.
  - intros m Hm. unfold drop_system. simpl. now rewrite Hm.
Qed.

(** The state in which the streaming loop starts. *)
Lemma generating (env : Env) (input : string) (s : State) :
  idle s -> JS.truthy (JS.trim input) = true ->
  JS.defined_truthy (API_KEY env) = true ->
  let relevant := relevantChunks (memory env) input in
  let response := generateContentStream env (prompt relevant input) in
  let t := scan_time (now s) relevant in
  let i := "ai-" ++ JS.of_N t in
  run (scan_turns relevant) env (handleSend env input s)
  = {| now := t;
       history := (scanned (history s) input (now s) relevant
                   ++ [streaming_message i t])%list;
       isProcessing := true;
       timers := [((t + latency response)%N, AwaitStream i "" response)] |}.
Proof.
  intros Hidle Hin Hk. cbv zeta.
  rewrite (after_scan env input s Hidle Hin).
  now rewrite respond_online by (assumption || reflexivity).
Qed.

Lemma nth_error_end (A : Type) (l : list A) (x : A) :
  nth_error (l ++ [x]) (List.length l) = Some x.
Proof. rewrite nth_error_app2 by lia. now rewrite Nat.sub_diag. Qed.

Lemma firstn_succ (A : Type) (l : list A) (k : nat) :
  k < List.length l -> exists x, firstn (S k) l = (firstn k l ++ [x])%list.
Proof.
  revert k. induction l as [|a l IH]; intros k Hk; simpl in Hk; [lia|].
  destruct k as [|k]; [now exists a|].
  destruct (IH k) as [x Hx]; [lia|]. exists x.
  change (firstn (S (S k)) (a :: l)) with (a :: firstn (S k) l). now rewrite Hx.
Qed.

(** What lines 487-498 do with the texts the call of line 489 returns
    ([increments] stops at the first chunk on which it throws): the
    assistant message carries their concatenation after each of them, and
    is unflagged when the stream completes without an exception. *)
Lemma returned_texts_accumulate (env : Env) (input : string) (s : State) :
  idle s -> JS.truthy (JS.trim input) = true ->
  JS.defined_truthy (API_KEY env) = true ->
  let relevant := relevantChunks (memory env) input in
  let response := generateContentStream env (prompt relevant input) in
  let incs := increments response in
  let start := scan_turns relevant in
  let t := scan_time (now s) relevant in
  let i := "ai-" ++ JS.of_N t in
  let before := scanned (history s) input (now s) relevant in
  let pos := List.length before in
  let s0 := handleSend env input s in
  history (run start env s0) = (before ++ [Message.mk i assistant "" t (Some true)])%list /\
  (forall k, k <= List.length incs ->
     nth_error (history (run (start + k) env s0)) pos
     = Some (Message.mk i assistant (concatenation (firstn k incs)) t (Some true))) /\
  (forall k, k < List.length incs ->
     exists inc, concatenation (firstn (S k) incs)
                 = concatenation (firstn k incs) ++ inc) /\
  (faulted response = false ->
     let s' := run (start + S (List.length incs)) env s0 in
     idle s' /\
     List.length (history s') = S pos /\
     nth_error (history s') pos
     = Some (Message.mk i assistant (concatenation incs) t (Some false))).
Proof.
  intros Hidle Hin Hk. cbv zeta.
  pose proof (generating env input s Hidle Hin Hk) as Hg. cbv zeta in Hg.
  refine (conj _ (conj _ (conj _ _))).
  - now rewrite Hg.
  - intros k Hle. rewrite run_add, Hg.
    lazymatch goal with
    | |- context [run k env ?st] =>
        edestruct stream_progress with (env := env) (k := k) (s := st) as [H _];
          [reflexivity | apply nth_error_end | reflexivity | reflexivity
          | exact Hle |]
    end.
    exact H.
  - intros k Hlt. destruct (firstn_succ _ _ k Hlt) as [x Hx].
    exists x. now rewrite Hx, concatenation_snoc.
  - intros Hf. rewrite run_add, Hg.
    lazymatch goal with
    | |- context [run _ env ?st] =>
        edestruct stream_end with (env := env) (s := st) as [H1 [H2 H3]];
          [reflexivity | apply nth_error_end | reflexivity | reflexivity |]
    end.
    rewrite Hf in H3. destruct H3 as [H3 H4].
    split; [split; assumption|]. split.
    + rewrite H3. simpl. rewrite length_app. simpl. lia.
    + exact H4.
Qed.

(** C4: with a usable API key and a backend that delivers its chunks as
    the imported [@google/genai] does, the call [chunk.text()] of line 489
    throws on the first chunk: no increment ever reaches the assistant
    message, whose body stays empty and whose streaming flag stays true;
    the error notice is appended, the engine is idle, and no later turn
    changes the history. *)
Theorem C4_text_call_throws (env : Env) (input : string) (s : State)
    (d : N) (text : option string) (rest : Stream) :
  idle s -> JS.truthy (JS.trim input) = true ->
  JS.defined_truthy (API_KEY env) = true ->
  let relevant := relevantChunks (memory env) input in
  generateContentStream env (prompt relevant input) = YieldGetter d text rest ->
  let t := scan_time (now s) relevant in
  let i := "ai-" ++ JS.of_N t in
  let before := scanned (history s) input (now s) relevant in
  let s0 := handleSend env input s in
  let s' := run (scan_turns relevant + 1) env s0 in
  idle s' /\
  history s'
  = (before ++ [Message.mk i assistant "" t (Some true); error_notice (t + d)%N])%list /\
  forall n, history (run (scan_turns relevant + 1 + n) env s0) = history s'.
Proof.
  intros Hidle Hin Hk. cbv zeta. intros Hresp.
  pose proof (generating env input s Hidle Hin Hk) as Hg. cbv zeta in Hg.
  rewrite Hresp in Hg.
  assert (Hs : run (scan_turns (relevantChunks (memory env) input) + 1) env
                 (handleSend env input s)
               = {| now := (scan_time (now s) (relevantChunks (memory env) input) + d)%N;
                    history :=
                      ((scanned (history s) input (now s)
                          (relevantChunks (memory env) input)
                        ++ [streaming_message
                              ("ai-" ++ JS.of_N (scan_time (now s)
                                                   (relevantChunks (memory env) input)))
                              (scan_time (now s) (relevantChunks (memory env) input))])
                       ++ [error_notice
                             (scan_time (now s) (relevantChunks (memory env) input) + d)%N])%list;
                    isProcessing := false; timers := [] |}).
  { rewrite run_add, Hg. reflexivity. }
  refine (conj _ (conj _ _)).
  - rewrite Hs. split; reflexivity.
  - rewrite Hs. simpl. now rewrite <- app_assoc.
  - intros n. rewrite run_add, Hs. now rewrite run_idle.
Qed.

Lemma C4_text_call_throws_witness :
  let env := online_env (YieldGetter 10 (Some "Sys")
                           (YieldGetter 3 (Some "tem optimal.") (Done 5))) in
  let s' := run 2 env (handleSend env "status report" (mount 1000)) in
  idle s' /\
  history s'
  = [init_message 1000; user_message "1000" "status report" 1000;
     Message.mk "ai-1600" assistant "" 1600 (Some true); error_notice 1610].
Proof.
  destruct (C4_text_call_throws
              (online_env (YieldGetter 10 (Some "Sys")
                             (YieldGetter 3 (Some "tem optimal.") (Done 5))))
              "status report" (mount 1000) 10 (Some "Sys")
              (YieldGetter 3 (Some "tem optimal.") (Done 5))) as [H1 [H2 _]].
  - split; reflexivity.
  - reflexivity.
  - reflexivity.
  - reflexivity.
  - split; [exact H1 | exact H2].
Defined.


(** C2: with a usable API key, when the stream of a directive submitted to
    an idle engine ends in a fault, the handler's catch block appends the
    fixed error notice and the engine becomes idle, but the assistant
    message keeps the text received so far and its streaming flag stays
    true. *)
Theorem C2_fault_leaves_streaming_flag (env : Env) (input : string) (s : State) :
  idle s -> JS.truthy (JS.trim input) = true ->
  JS.defined_truthy (API_KEY env) = true ->
  let relevant := relevantChunks (memory env) input in
  let response := generateContentStream env (prompt relevant input) in
  let incs := increments response in
  let t := scan_time (now s) relevant in
  let i := "ai-" ++ JS.of_N t in
  let pos := List.length (scanned (history s) input (now s) relevant) in
  let s' := run (scan_turns relevant + S (List.length incs)) env (handleSend env input s) in
  faulted response = true ->
  idle s' /\
  (exists h t', history s' = (h ++ [error_notice t'])%list) /\
  nth_error (history s') pos
  = Some (Message.mk i assistant (concatenation incs) t (Some true)) /\
  existsb Message.streaming (history s') = true.
Proof.
  intros Hidle Hin Hk. cbv zeta. intros Hf.
  pose proof (generating env input s Hidle Hin Hk) as Hg. cbv zeta in Hg.
  rewrite run_add, Hg.
  lazymatch goal with
  | |- context [run _ env ?st] =>
      edestruct stream_end with (env := env) (s := st) as [H1 [H2 H3]];
        [reflexivity | apply nth_error_end | reflexivity | reflexivity |]
  end.
  rewrite Hf in H3. destruct H3 as [h [t' [H3 [H4 H5]]]].
  assert (Hn : nth_error (h ++ [error_notice t'])
                 (List.length (scanned (history s) input (now s)
                                 (relevantChunks (memory env) input)))
               = Some (Message.mk ("ai-" ++ JS.of_N (scan_time (now s)
                                     (relevantChunks (memory env) input)))
                         assistant
                         (concatenation (increments (generateContentStream env
                            (prompt (relevantChunks (memory env) input) input))))
                         (scan_time (now s) (relevantChunks (memory env) input))
                         (Some true))).
  { rewrite nth_error_app1; [exact H5|].
    rewrite H4. simpl. rewrite length_app. simpl. lia. }
  rewrite H3. refine (conj _ (conj _ (conj _ _))).
  - split; assumption.
  - now exists h, t'.
  - exact Hn.
  - apply existsb_exists. eexists. split; [eapply nth_error_In; exact Hn | reflexivity].
Qed.

Lemma C2_fault_leaves_streaming_flag_witness :
  let env := online_env (Yield 10 "Sys" (Fault 5)) in
  let s' := run 3 env (handleSend env "status report" (mount 1000)) in
  idle s' /\
  history s'
  = [init_message 1000; user_message "1000" "status report" 1000;
     Message.mk "ai-1600" assistant "Sys" 1600 (Some true); error_notice 1615] /\
  existsb Message.streaming (history s') = true.
Proof.
  destruct (C2_fault_leaves_streaming_flag (online_env (Yield 10 "Sys" (Fault 5)))
              "status report" (mount 1000)) as [H1 [_ [_ H2]]].
  - split; reflexivity.
  - reflexivity.
  - reflexivity.
  - reflexivity.
  - split; [exact H1 | split; [reflexivity | exact H2]].
Defined.

(** ** Reachable states *)

(** With an API key, [isProcessing] is true exactly while a continuation of
    the handler is pending: the engine accepts a directive only when idle. *)
Lemma online_idle_or_in_flight (env : Env) (s : State) :
  JS.defined_truthy (API_KEY env) = true ->
  reachable env s -> idle s \/ in_flight s.
Proof.
  intros Hk. induction 1 as [t|input s Hr IH|s s' Hr IH Ht|t s Hr IH].
  - left. split; reflexivity.
  - destruct IH as [Hidle|[Hp Hq]].
    + destruct (JS.truthy (JS.trim input)) eqn:Hin.
      * right. rewrite (handleSend_accepted env input s Hidle Hin).
        split; [reflexivity|]. do 2 eexists. split; [reflexivity | discriminate].
      * rewrite handleSend_blank by assumption. now left.
    + rewrite handleSend_busy by assumption. right. now split.
  - destruct IH as [[_ Hq]|[Hp [d [k [Hq Hno]]]]].
    + rewrite tick_none in Ht by assumption. discriminate.
    + unfold tick in Ht. rewrite Hq in Ht. inversion Ht; subst; clear Ht.
      destruct k as [u r|u r|i ft [d' t rest|d'|d'|d' g rest]|]; try contradiction; cbn [resume].
      * destruct (0 <? List.length r).
        -- right. split; [exact Hp|]. do 2 eexists. split; [reflexivity | discriminate].
        -- right. rewrite respond_online by (assumption || reflexivity).
           split; [exact Hp|]. do 2 eexists. split; [reflexivity | discriminate].
      * right. rewrite respond_online by (assumption || reflexivity).
        split; [exact Hp|]. do 2 eexists. split; [reflexivity | discriminate].
      * right. split; [exact Hp|]. do 2 eexists. split; [reflexivity | discriminate].
      * left. split; reflexivity.
      * left. split; reflexivity.
      * left. split; reflexivity.
  - destruct IH as [Hidle|Hfl]; [left | right]; assumption.
Qed.

(** With an API key a released engine has nothing pending: a directive is
    only ever accepted in an idle state. *)
Lemma online_accepting_is_idle (env : Env) (s : State) :
  JS.defined_truthy (API_KEY env) = true ->
  reachable env s -> isProcessing s = false -> idle s.
Proof.
  intros Hk Hr Hp. destruct (online_idle_or_in_flight env s Hk Hr) as [H|[H _]];
    [assumption | congruence].
Qed.

(** ** The scanning notice *)

(** The state at the end of the scan delay when something was found. *)
Lemma scan_hit (env : Env) (input : string) (s : State) (c : Chunk.t) (cs : list Chunk.t) :
  idle s -> JS.truthy (JS.trim input) = true ->
  relevantChunks (memory env) input = c :: cs ->
  run 1 env (handleSend env input s)
  = {| now := (now s + 600)%N;
       history := scanned (history s) input (now s) (c :: cs);
       isProcessing := true;
       timers := [((now s + 600 + 400)%N, AfterPause input (c :: cs))] |}.
Proof.
  intros Hidle Hin E. rewrite (handleSend_accepted env input s Hidle Hin), E.
  simpl. unfold tick. simpl. unfold setTimeout, set_history. simpl.
  change (history s ++ [user_message (JS.of_N (now s)) input (now s);
                        scanning_notice (JS.of_N (now s)) (now s)])%list
    with (history s ++ [user_message (JS.of_N (now s)) input (now s)]
                    ++ [scanning_notice (JS.of_N (now s)) (now s)])%list.
  rewrite app_assoc, report_count_last by reflexivity.
  rewrite <- app_assoc. reflexivity.
Qed.

(** C1 as stated does not hold when the scan finds something: after the
    whole pipeline the engine is idle and the notice, rewritten to the
    count, is still in the history. *)
Lemma C1_notice_persists :
  let s := play 50 offline_env [(1000%N, "what's our architecture plan")] (mount 0) in
  idle s /\
  history s
  = [init_message 0;
     user_message "1000" "what's our architecture plan" 1000;
     Message.mk "sys-1000" system "Identified 1 relevant memory fragments." 1000 None;
     offline_notice 2500] /\
  ~ Forall not_system (history s).
Proof.
  cbv zeta. refine (conj _ (conj _ _)).
  - split; reflexivity.
  - reflexivity.
  - intros H. rewrite Forall_forall in H.
    specialize (H (Message.mk "sys-1000" system
                     "Identified 1 relevant memory fragments." 1000 None)).
    discriminate H. vm_compute. tauto.
Qed.

(** C1 as the handler has it: a directive submitted to an idle engine
    appends its user message and the scanning notice; if the scan selects
    nothing, the notice is deleted at the end of the scan delay, unchanged
    until then, and no system message is in the history from then on; if
    it selects fragments, the notice is rewritten in place to the count at
    the end of the scan delay and stays in the history through the pause
    and every later turn of the pipeline. *)
Theorem C1_notice_lifecycle (env : Env) (input : string) (s : State) :
  idle s -> JS.truthy (JS.trim input) = true ->
  let t := now s in
  let u := user_message (JS.of_N t) input t in
  let notice := scanning_notice (JS.of_N t) t in
  let s0 := handleSend env input s in
  history s0 = (history s ++ [u; notice])%list /\
  match relevantChunks (memory env) input with
  | [] => forall n, 1 <= n -> Forall not_system (history (run n env s0))
  | c :: cs =>
      let summary := Message.with_content notice (identified_text (S (List.length cs))) in
      history (run 1 env s0) = (history s ++ [u; summary])%list /\
      forall n, 1 <= n -> In summary (history (run n env s0))
  end.
Proof.
  intros Hidle Hin. cbv zeta. split.
  - now rewrite (handleSend_accepted env input s Hidle Hin).
  - destruct (relevantChunks (memory env) input) as [|c cs] eqn:E.
    + intros n Hn. replace n with (1 + (n - 1)) by lia. rewrite run_add.
      pose proof (after_scan env input s Hidle Hin) as Hs. cbv zeta in Hs.
      rewrite E in Hs. change (scan_turns []) with 1 in Hs. rewrite Hs.
      apply (run_invariant (fun x => late x /\ Forall not_system (history x)) env).
      * intros x x' [Hl Hh] Ht. split; [eapply tick_late | eapply tick_no_system]; eauto.
      * split; [now apply respond_late|].
        edestruct respond_appends as [tail [Hh Htail]].
        rewrite Hh. apply Forall_app. split; [|exact Htail].
        simpl. apply Forall_app. split; [apply drop_system_clean | now repeat constructor].
    + rewrite (scan_hit env input s c cs Hidle Hin E). simpl.
      split; [reflexivity|].
      intros n Hn. replace n with (1 + (n - 1)) by lia. rewrite run_add.
      rewrite (scan_hit env input s c cs Hidle Hin E).
      apply (run_invariant
               (fun x => late x /\
                         In (Message.with_content
                               (scanning_notice (JS.of_N (now s)) (now s))
                               (identified_text (S (List.length cs)))) (history x)) env).
      * intros x x' [Hl Hh] Ht. split; [eapply tick_late; eauto|].
        eapply tick_keeps_notice; eauto. reflexivity.
      * split; [repeat constructor|].
        simpl. apply in_or_app. right. right. now left.
Qed.

Lemma C1_notice_lifecycle_witness :
  let s0 := handleSend offline_env "what's our architecture plan" (mount 1000) in
  let summary :=
    Message.mk "sys-1000" system "Identified 1 relevant memory fragments." 1000 None in
  history (run 1 offline_env s0)
  = [init_message 1000; user_message "1000" "what's our architecture plan" 1000; summary]
  /\ forall n, 1 <= n -> In summary (history (run n offline_env s0)).
Proof.
  destruct (C1_notice_lifecycle offline_env "what's our architecture plan" (mount 1000))
    as [_ H].
  - split; reflexivity.
  - reflexivity.
  - exact H.
Defined.

(** ** Serialization of pipelines *)

(** C6: without an API key the handler clears [isProcessing] before its
    fallback timer has fired, so a directive submitted in between is
    accepted: here "hello", submitted at 1700, enters the history while the
    offline notice of "status report" is still pending, and that notice
    then lands between the second directive and its own notice. *)
Theorem C6_offline_pipelines_interleave :
  let s1 := submit_at 50 offline_env 1000 "status report" (mount 0) in
  let waiting := settle 50 offline_env 1700 s1 in
  let s2 := handleSend offline_env "hello" waiting in
  isProcessing waiting = false /\
  timers waiting = [(2100%N, OfflineNotice)] /\
  history s2
  = [init_message 0; user_message "1000" "status report" 1000;
     user_message "1700" "hello" 1700; scanning_notice "1700" 1700] /\
  history (run 50 offline_env s2)
  = [init_message 0; user_message "1000" "status report" 1000;
     user_message "1700" "hello" 1700; offline_notice 2100; offline_notice 2800] /\
  idle (run 50 offline_env s2).
Proof. cbv zeta. repeat split; reflexivity. Qed.

(** ** Message identifiers *)

(** C8: two directives handled one after the other without an API key
    leave two messages with the identifier "err" in the history. *)
Theorem C8_offline_notices_share_an_identifier :
  let s := play 50 offline_env [(1000%N, "status report"); (5000%N, "hello")] (mount 0) in
  idle s /\
  map Message.id (history s) = ["init"; "1000"; "err"; "5000"; "err"] /\
  ~ NoDup (map Message.id (history s)).
Proof.
  cbv zeta. refine (conj _ (conj _ _)).
  - split; reflexivity.
  - reflexivity.
  - change (~ NoDup ["init"; "1000"; "err"; "5000"; "err"]).
    intros H. apply NoDup_cons_iff in H. destruct H as [_ H].
    apply NoDup_cons_iff in H. destruct H as [_ H].
    apply NoDup_cons_iff in H. destruct H as [Hn _].
    apply Hn. right. now left.
Qed.

(** * The engine as a whole *)

(** ** The guard of [handleSend] *)

Lemma trimEnd_empty (s : string) : JS.trimEnd s = "" <-> blank s = true.
Proof.
  induction s as [|c s IH]; simpl; [tauto|].
  destruct (JS.trimEnd s) as [|c' t] eqn:E.
  - destruct (JS.is_space c); simpl.
    + rewrite <- IH. tauto.
    + split; discriminate.
  - split; [discriminate|]. intros H. apply andb_true_iff in H.
    destruct H as [_ H]. apply IH in H. discriminate.
Qed.

Lemma blank_trimStart (s : string) : blank (JS.trimStart s) = blank s.
Proof.
  induction s as [|c s IH]; simpl; [reflexivity|].
  destruct (JS.is_space c) eqn:E; simpl; [exact IH | now rewrite E].
Qed.

(** [!input.trim()] holds exactly for texts of white space. *)
Lemma trim_falsy_iff (input : string) :
  JS.truthy (JS.trim input) = false <-> blank input = true.
Proof.
  unfold JS.trim. rewrite <- blank_trimStart, <- trimEnd_empty.
  destruct (JS.trimEnd (JS.trimStart input)); simpl; split; congruence.
Qed.

Lemma handleSend_accepted_any (env : Env) (input : string) (s : State) :
  JS.truthy (JS.trim input) = true -> isProcessing s = false ->
  handleSend env input s
  = {| now := now s;
       history := (history s ++ [user_message (JS.of_N (now s)) input (now s);
                                 scanning_notice (JS.of_N (now s)) (now s)])%list;
       isProcessing := true;
       timers := schedule (now s + 600)%N
                   (AfterScan input (relevantChunks (memory env) input)) (timers s) |}.
Proof.
  intros Hin Hp. unfold handleSend. rewrite Hin, Hp. simpl.
  unfold setTimeout, push. simpl. now rewrite <- app_assoc.
Qed.

(** A submission of an ASCII text changes the engine exactly when the text
    has a character other than tab, line feed, vertical tab, form feed,
    carriage return and space, and no pipeline is running; it then appends
    the directive as typed, untrimmed, and the scanning notice, and sets
    [isProcessing]. *)
Theorem handleSend_accepts_iff (env : Env) (input : string) (s : State) :
  ascii_text input = true ->
  (handleSend env input s <> s <-> blank input = false /\ isProcessing s = false) /\
  (blank input = false -> isProcessing s = false ->
   history (handleSend env input s)
   = (history s ++ [user_message (JS.of_N (now s)) input (now s);
                    scanning_notice (JS.of_N (now s)) (now s)])%list /\
   isProcessing (handleSend env input s) = true).
Proof.
  intros _.
  assert (Hacc : blank input = false -> isProcessing s = false ->
                 handleSend env input s
                 = {| now := now s;
                      history := (history s ++ [user_message (JS.of_N (now s)) input (now s);
                                   scanning_notice (JS.of_N (now s)) (now s)])%list;
                      isProcessing := true;
                      timers := schedule (now s + 600)%N
                                  (AfterScan input (relevantChunks (memory env) input))
                                  (timers s) |}).
  { intros Hb Hp. apply handleSend_accepted_any; [|assumption].
    destruct (JS.truthy (JS.trim input)) eqn:E; [reflexivity|].
    apply trim_falsy_iff in E. congruence. }
  split.
  - split.
    + intros Hne. destruct (blank input) eqn:Hb.
      * exfalso. apply Hne. apply handleSend_blank. now apply trim_falsy_iff.
      * destruct (isProcessing s) eqn:Hp; [|now split].
        exfalso. apply Hne. now apply handleSend_busy.
    + intros [Hb Hp] Heq. rewrite (Hacc Hb Hp) in Heq.
      apply (f_equal isProcessing) in Heq. simpl in Heq. congruence.
  - intros Hb Hp. rewrite (Hacc Hb Hp). now split.
Qed.

Lemma handleSend_accepts_iff_witness :
  history (handleSend offline_env " go " (mount 1000))
  = [init_message 1000; user_message "1000" " go " 1000; scanning_notice "1000" 1000] /\
  isProcessing (handleSend offline_env " go " (mount 1000)) = true.
Proof.
  destruct (handleSend_accepts_iff offline_env " go " (mount 1000) eq_refl) as [_ H].
  exact (H eq_refl eq_refl).
Defined.

(** ** One pipeline at a time, and every pipeline ends *)

Lemma schedule_in_pipeline (d : N) (k : Task) (ts : list (N * Task)) :
  in_pipeline (schedule d k ts)
  = (if is_offline_task k then 0 else 1) + in_pipeline ts.
Proof.
  unfold in_pipeline. induction ts as [|[d' k'] ts IH]; simpl.
  - now destruct (is_offline_task k).
  - destruct (d <? d')%N; simpl.
    + now destruct (is_offline_task k).
    + destruct (is_offline_task k'); simpl; rewrite IH; lia.
Qed.

Lemma schedule_pending (env : Env) (d : N) (k : Task) (ts : list (N * Task)) :
  pending_turns env (schedule d k ts) = turns_left env k + pending_turns env ts.
Proof.
  unfold pending_turns. induction ts as [|[d' k'] ts IH]; simpl; [reflexivity|].
  destruct (d <? d')%N; simpl; [reflexivity | rewrite IH; lia].
Qed.

Lemma in_pipeline_cons (d : N) (k : Task) (ts : list (N * Task)) :
  in_pipeline ((d, k) :: ts) = (if is_offline_task k then 0 else 1) + in_pipeline ts.
Proof. unfold in_pipeline. simpl. now destruct (is_offline_task k). Qed.

Lemma handleSend_serial (env : Env) (input : string) (s : State) :
  serial s -> serial (handleSend env input s).
Proof.
  intros Hs. destruct (isProcessing s) eqn:Hp.
  - now rewrite handleSend_busy.
  - destruct (JS.truthy (JS.trim input)) eqn:Hin.
    + rewrite handleSend_accepted_any by assumption.
      unfold serial in *. simpl. rewrite schedule_in_pipeline, Hs, Hp. reflexivity.
    + now rewrite handleSend_blank.
Qed.

Lemma tick_serial (env : Env) (s s' : State) :
  serial s -> tick env s = Some s' -> serial s'.
Proof.
  unfold serial, tick. intros Hs Ht.
  destruct (timers s) as [|[due k] rest] eqn:E; [discriminate|].
  inversion Ht; subst; clear Ht. rewrite in_pipeline_cons in Hs.
  destruct k as [u r|u r|i ft [d t rest'|d|d|d g rest']|]; cbn [is_offline_task] in Hs;
    cbn [resume];
    try (revert Hs; destruct (isProcessing s); intros Hs; [|discriminate];
         assert (Hr : in_pipeline rest = 0) by lia).
  - destruct (0 <? List.length r); simpl.
    + rewrite schedule_in_pipeline, Hr. reflexivity.
    + unfold respond. destruct (JS.defined_truthy (API_KEY env)); simpl;
        rewrite schedule_in_pipeline, Hr; reflexivity.
  - unfold respond. destruct (JS.defined_truthy (API_KEY env)); simpl;
      rewrite schedule_in_pipeline, Hr; reflexivity.
  - simpl. rewrite schedule_in_pipeline, Hr. reflexivity.
  - simpl. exact Hr.
  - simpl. exact Hr.
  - simpl. exact Hr.
  - simpl. exact Hs.
Qed.

Lemma serial_invariant (env : Env) (s : State) :
  reachable env s -> serial s.
Proof.
  induction 1 as [t|input s Hr IH|s s' Hr IH Ht|t s Hr IH].
  - reflexivity.
  - now apply handleSend_serial.
  - now apply (tick_serial env s).
  - exact IH.
Qed.

Lemma in_pipeline_zero (ts : list (N * Task)) (d : N) (k : Task) :
  in_pipeline ts = 0 -> In (d, k) ts -> k = OfflineNotice.
Proof.
  induction ts as [|[d' k'] ts IH]; intros Hz Hin; [contradiction|].
  rewrite in_pipeline_cons in Hz. destruct Hin as [Heq|Hin].
  - inversion Heq; subst. destruct k; simpl in Hz; try lia. reflexivity.
  - apply IH; [lia | assumption].
Qed.

Lemma in_pipeline_pos (ts : list (N * Task)) :
  0 < in_pipeline ts -> exists d k, In (d, k) ts /\ k <> OfflineNotice.
Proof.
  induction ts as [|[d' k'] ts IH]; intros Hp; [inversion Hp|].
  rewrite in_pipeline_cons in Hp. destruct (is_offline_task k') eqn:Ho.
  - destruct (IH Hp) as [d [k [Hin Hk]]]. exists d, k. split; [now right | assumption].
  - exists d', k'. split; [now left|]. intros ->. discriminate.
Qed.

(** In every reachable state the continuations of [handleSend] that are
    pending number exactly one while [isProcessing] is true and none while
    it is false: two pipelines never run side by side, and only detached
    fallback timers can outlive the flag. *)
Theorem one_pipeline_at_a_time (env : Env) (s : State) :
  reachable env s ->
  (isProcessing s = true ->
   in_pipeline (timers s) = 1 /\
   exists d k, In (d, k) (timers s) /\ k <> OfflineNotice) /\
  (isProcessing s = false ->
   forall d k, In (d, k) (timers s) -> k = OfflineNotice).
Proof.
  intros Hr. pose proof (serial_invariant env s Hr) as Hs. unfold serial in Hs.
  split; intros Hp; rewrite Hp in Hs.
  - split; [assumption|]. apply in_pipeline_pos. lia.
  - intros d k. now apply in_pipeline_zero.
Qed.

Lemma tick_decreases (env : Env) (s s' : State) :
  tick env s = Some s' ->
  pending_turns env (timers s') < pending_turns env (timers s).
Proof.
  unfold tick. intros Ht.
  destruct (timers s) as [|[due k] rest] eqn:E; [discriminate|].
  inversion Ht; subst; clear Ht.
  change (pending_turns env ((due, k) :: rest))
    with (turns_left env k + pending_turns env rest).
  destruct k as [u r|u r|i ft [d t rest'|d|d|d g rest']|]; cbn [resume].
  - destruct (0 <? List.length r); simpl timers.
    + rewrite schedule_pending. simpl. lia.
    + unfold respond, turns_left, respond_turns.
      destruct (JS.defined_truthy (API_KEY env)); simpl timers;
        rewrite schedule_pending; simpl; lia.
  - unfold respond, turns_left, respond_turns.
    destruct (JS.defined_truthy (API_KEY env)); simpl timers;
      rewrite schedule_pending; simpl; lia.
  - simpl timers. rewrite schedule_pending. simpl. lia.
  - simpl. lia.
  - simpl. lia.
  - simpl. lia.
  - simpl. lia.
Qed.

Lemma pending_zero (env : Env) (ts : list (N * Task)) :
  pending_turns env ts = 0 -> ts = [].
Proof.
  destruct ts as [|[d k] ts]; [reflexivity|]. unfold pending_turns. simpl.
  destruct k; simpl; lia.
Qed.

Lemma run_drains (env : Env) (n : nat) :
  forall s, pending_turns env (timers s) <= n -> timers (run n env s) = [].
Proof.
  induction n as [|n IH]; intros s Hn; simpl.
  - apply (pending_zero env). lia.
  - destruct (tick env s) as [s'|] eqn:Ht.
    + apply IH. pose proof (tick_decreases env s s' Ht). lia.
    + unfold tick in Ht. destruct (timers s) as [|[d k] ts]; [reflexivity | discriminate].
Qed.

Lemma run_reachable (env : Env) (n : nat) :
  forall s, reachable env s -> reachable env (run n env s).
Proof.
  induction n as [|n IH]; intros s Hr; simpl; [assumption|].
  destruct (tick env s) as [s'|] eqn:Ht; [|assumption].
  apply IH. now apply (reach_tick env s).
Qed.

(** From every reachable state the event loop comes to rest: after at most
    [pending_turns] turns no timer is left and [isProcessing] is false,
    whatever the backend answers. *)
Theorem pipeline_ends (env : Env) (s : State) :
  reachable env s -> idle (run (pending_turns env (timers s)) env s).
Proof.
  intros Hr.
  pose proof (run_drains env _ s (le_n _)) as Ht.
  pose proof (serial_invariant env _
                (run_reachable env (pending_turns env (timers s)) s Hr)) as Hs.
  unfold serial in Hs. rewrite Ht in Hs. split; [|assumption].
  destruct (isProcessing _); [discriminate | reflexivity].
Qed.

Lemma pipeline_ends_witness :
  let env := online_env (Yield 10 "Sys" (Fault 5)) in
  idle (run 4 env (handleSend env "budget" (mount 1000))).
Proof.
  apply (pipeline_ends (online_env (Yield 10 "Sys" (Fault 5)))
           (handleSend (online_env (Yield 10 "Sys" (Fault 5))) "budget" (mount 1000))).
  apply reach_submit. apply reach_mount.
Defined.

Lemma one_pipeline_at_a_time_witness :
  let s := submit_at 50 offline_env 1700 "hello"
             (handleSend offline_env "status report" (mount 1000)) in
  timers s = [(2100%N, OfflineNotice); (2300%N, AfterScan "hello" [])] /\
  in_pipeline (timers s) = 1.
Proof.
  split; [reflexivity|].
  apply (one_pipeline_at_a_time offline_env); [|reflexivity].
  unfold submit_at. apply reach_submit.
  change (settle 50 offline_env 1700 (handleSend offline_env "status report" (mount 1000)))
    with {| now := 1700%N;
            history := history (run 1 offline_env
                                  (handleSend offline_env "status report" (mount 1000)));
            isProcessing := isProcessing (run 1 offline_env
                                  (handleSend offline_env "status report" (mount 1000)));
            timers := timers (run 1 offline_env
                                  (handleSend offline_env "status report" (mount 1000))) |}.
  apply reach_clock. apply run_reachable. apply reach_submit. apply reach_mount.
Defined.

(** ** Streaming flags *)

Lemma schedule_In (d : N) (k : Task) (ts : list (N * Task)) (x : N * Task) :
  In x (schedule d k ts) <-> x = (d, k) \/ In x ts.
Proof.
  induction ts as [|[d' k'] ts IH]; simpl.
  - intuition congruence.
  - destruct (d <? d')%N; simpl; [intuition congruence|].
    rewrite IH. intuition congruence.
Qed.

Lemma rev_cons_inv (A : Type) (h : list A) (x : A) (front : list A) :
  rev h = x :: front -> h = (rev front ++ [x])%list.
Proof. intros E. rewrite <- (rev_involutive h), E. reflexivity. Qed.

(** The updates of the handler keep identifier, role and flag of the
    messages they keep, the cleared flag of lines 496-498 apart. *)
Lemma report_count_origin (n : nat) (h : History) (m : Message.t) :
  In m (report_count n h) ->
  exists m0, In m0 h /\ Message.id m = Message.id m0 /\
             Message.role m = Message.role m0 /\
             Message.isStreaming m = Message.isStreaming m0.
Proof.
  unfold report_count. destruct (rev h) as [|last front] eqn:E.
  - intros H. now exists m.
  - apply rev_cons_inv in E. destruct (is_system last).
    + intros H. apply in_app_or in H. destruct H as [H|[<-|[]]].
      * exists m. repeat split. rewrite E. apply in_or_app. now left.
      * exists last. repeat split. rewrite E. apply in_or_app. right. now left.
    + intros H. now exists m.
Qed.

Lemma set_content_origin (i t : string) (h : History) (m : Message.t) :
  In m (set_content i t h) ->
  exists m0, In m0 h /\ Message.id m = Message.id m0 /\
             Message.role m = Message.role m0 /\
             Message.isStreaming m = Message.isStreaming m0.
Proof.
  unfold set_content. rewrite in_map_iff. intros [m0 [<- H]].
  exists m0. now destruct (Message.id m0 =? i)%string.
Qed.

Lemma stop_streaming_origin (i : string) (h : History) (m : Message.t) :
  In m (stop_streaming i h) ->
  Message.streaming m = false \/ (In m h /\ (Message.id m =? i)%string = false).
Proof.
  unfold stop_streaming. rewrite in_map_iff. intros [m0 [<- H]].
  destruct (Message.id m0 =? i)%string eqn:E; [now left | now right].
Qed.

Lemma streaming_by_flag (m m0 : Message.t) :
  Message.isStreaming m = Message.isStreaming m0 ->
  Message.streaming m = Message.streaming m0.
Proof. unfold Message.streaming. now intros ->. Qed.

(** ** Directives and greeting *)

Lemma of_N_not_ai (n : N) (x : string) : (JS.of_N n =? "ai-" ++ x)%string = false.
Proof.
  unfold JS.of_N, NilZero.string_of_uint. destruct (N.to_uint n); reflexivity.
Qed.

Lemma users_app (a b : History) : users (a ++ b) = (users a ++ users b)%list.
Proof. apply filter_app. Qed.

Lemma users_report_count (n : nat) (h : History) : users (report_count n h) = users h.
Proof.
  unfold report_count. destruct (rev h) as [|last front] eqn:E; [reflexivity|].
  apply rev_cons_inv in E. destruct (is_system last) eqn:Hs; [|reflexivity].
  rewrite E, !users_app. f_equal. unfold users, is_user, is_system in *. simpl.
  destruct (Message.role last); simpl in *; congruence || reflexivity.
Qed.

Lemma users_drop_system (h : History) : users (drop_system h) = users h.
Proof.
  unfold users, drop_system. induction h as [|m h IH]; simpl; [reflexivity|].
  unfold is_system, is_user in *.
  destruct (Message.role m) eqn:R; simpl; rewrite ?R; simpl; now rewrite IH.
Qed.

Lemma users_map_ai (f : Message.t -> Message.t) (x : string) (h : History) :
  (forall m, Message.role (f m) = Message.role m) ->
  (forall m, (Message.id m =? "ai-" ++ x)%string = false -> f m = m) ->
  user_ids h -> users (map f h) = users h.
Proof.
  intros Hrole Hother. unfold user_ids, users.
  induction 1 as [|m h Hm _ IH]; simpl; [reflexivity|].
  unfold is_user at 1 3. rewrite Hrole. fold (is_user m).
  destruct (is_user m) eqn:Hu; [|exact IH].
  destruct (Hm eq_refl) as [n Hn]. rewrite Hother, IH; [reflexivity|].
  rewrite Hn. apply of_N_not_ai.
Qed.

Lemma users_set_content (x t : string) (h : History) :
  user_ids h -> users (set_content ("ai-" ++ x) t h) = users h.
Proof.
  apply (users_map_ai _ x).
  - intros m. now destruct (Message.id m =? "ai-" ++ x)%string.
  - intros m Hm. now rewrite Hm.
Qed.

Lemma users_stop_streaming (x : string) (h : History) :
  user_ids h -> users (stop_streaming ("ai-" ++ x) h) = users h.
Proof.
  apply (users_map_ai _ x).
  - intros m. now destruct (Message.id m =? "ai-" ++ x)%string.
  - intros m Hm. now rewrite Hm.
Qed.

Lemma user_ids_origin (h h' : History) :
  (forall m, In m h' ->
             is_user m = false \/
             exists m0, In m0 h /\ Message.id m = Message.id m0 /\
                        Message.role m = Message.role m0) ->
  user_ids h -> user_ids h'.
Proof.
  unfold user_ids. intros Ho Hh. rewrite Forall_forall in *. intros m Hm Hu.
  destruct (Ho m Hm) as [Hn|[m0 [Hm0 [Hid Hrole]]]]; [congruence|].
  rewrite Hid. apply (Hh m0 Hm0). unfold is_user in *. now rewrite <- Hrole.
Qed.

Lemma user_ids_push (m : Message.t) (h : History) :
  (is_user m = true -> exists n, Message.id m = JS.of_N n) ->
  user_ids h -> user_ids (push m h).
Proof.
  unfold user_ids, push. intros Hm Hh. apply Forall_app. split; [assumption|].
  now constructor.
Qed.

Lemma respond_ids_kept (env : Env) (userMsg : string) (relevant : list Chunk.t)
    (s : State) :
  ids_kept s -> ids_kept (respond env userMsg relevant s).
Proof.
  intros [Ha Hu]. unfold respond.
  destruct (JS.defined_truthy (API_KEY env)); split; simpl.
  - apply schedule_Forall; [|assumption]. unfold ai_task. simpl. eauto.
  - apply user_ids_push; [discriminate | assumption].
  - apply schedule_Forall; [exact I | assumption].
  - assumption.
Qed.

Lemma respond_users (env : Env) (userMsg : string) (relevant : list Chunk.t)
    (s : State) :
  users (history (respond env userMsg relevant s)) = users (history s).
Proof.
  unfold respond. destruct (JS.defined_truthy (API_KEY env)); simpl; [|reflexivity].
  unfold push. rewrite users_app. simpl. apply app_nil_r.
Qed.

Lemma tick_ids_kept (env : Env) (s s' : State) :
  ids_kept s -> tick env s = Some s' ->
  ids_kept s' /\ users (history s') = users (history s).
Proof.
  intros [Ha Hu] Ht. unfold tick in Ht.
  destruct (timers s) as [|[due k] rest] eqn:E; [discriminate|].
  inversion Ht; subst; clear Ht.
  apply Forall_cons_iff in Ha. destruct Ha as [Hk Hrest].
  destruct k as [u r|u r|i ft [d t rest'|d|d|d g rest']|]; cbn [resume].
  - destruct (0 <? List.length r).
    + split; [split|]; simpl.
      * apply schedule_Forall; [exact I | assumption].
      * revert Hu. apply user_ids_origin. intros m Hm. right.
        apply report_count_origin in Hm. destruct Hm as [m0 [H0 [H1 [H2 _]]]]. eauto.
      * apply users_report_count.
    + split.
      * apply respond_ids_kept. split; simpl; [assumption|].
        revert Hu. apply user_ids_origin. intros m Hm. right.
        apply filter_In in Hm. destruct Hm as [Hm _]. eauto.
      * rewrite respond_users. simpl. apply users_drop_system.
  - split; [apply respond_ids_kept; now split | now rewrite respond_users].
  - unfold ai_task in Hk. simpl in Hk. destruct Hk as [x ->].
    split; [split|]; simpl.
    + apply schedule_Forall; [|assumption]. unfold ai_task. simpl. eauto.
    + revert Hu. apply user_ids_origin. intros m Hm. right.
      apply set_content_origin in Hm. destruct Hm as [m0 [H0 [H1 [H2 _]]]]. eauto.
    + now apply users_set_content.
  - unfold ai_task in Hk. simpl in Hk. destruct Hk as [x ->].
    split; [split|]; simpl.
    + assumption.
    + revert Hu. apply user_ids_origin. intros m Hm.
      unfold stop_streaming in Hm. apply in_map_iff in Hm. destruct Hm as [m0 [<- H0]].
      right. exists m0. destruct (String.eqb _ _); repeat split; assumption.
    + now apply users_stop_streaming.
  - split; [split|]; simpl.
    + assumption.
    + apply user_ids_push; [discriminate | assumption].
    + unfold push. rewrite users_app. simpl. apply app_nil_r.
  - split; [split|]; simpl.
    + assumption.
    + apply user_ids_push; [discriminate | assumption].
    + unfold push. rewrite users_app. simpl. apply app_nil_r.
  - split; [split|]; simpl.
    + assumption.
    + apply user_ids_push; [discriminate | assumption].
    + unfold push. rewrite users_app. simpl. apply app_nil_r.
Qed.

Lemma handleSend_ids_kept (env : Env) (input : string) (s : State) :
  ids_kept s -> ids_kept (handleSend env input s).
Proof.
  intros [Ha Hu]. destruct (isProcessing s) eqn:Hp.
  - rewrite handleSend_busy by assumption. now split.
  - destruct (JS.truthy (JS.trim input)) eqn:Hin.
    + rewrite handleSend_accepted_any by assumption. split; simpl.
      * apply schedule_Forall; [exact I | assumption].
      * unfold user_ids. apply Forall_app. split; [assumption|].
        constructor; [intros _; eexists; reflexivity|].
        constructor; [discriminate | constructor].
    + rewrite handleSend_blank by assumption. now split.
Qed.

Lemma reachable_ids_kept (env : Env) (s : State) : reachable env s -> ids_kept s.
Proof.
  induction 1 as [t|input s Hr IH|s s' Hr IH Ht|t s Hr IH].
  - split; [constructor|]. repeat constructor. discriminate.
  - now apply handleSend_ids_kept.
  - now apply (tick_ids_kept env s).
  - exact IH.
Qed.



Lemma report_count_head (n : nat) (m : Message.t) (h : History) :
  is_system m = false -> exists h', report_count n (m :: h) = m :: h'.
Proof.
  intros Hm. unfold report_count.
  destruct (rev (m :: h)) as [|last front] eqn:E; [eauto|].
  destruct (is_system last) eqn:Hl; [|eauto].
  apply rev_cons_inv in E.
  destruct (rev front) as [|y ys] eqn:Ef; simpl in *.
  - inversion E; subst. congruence.
  - inversion E; subst. eauto.
Qed.

(** The greeting the view mounts with stays the first message of the
    history in every reachable state; in particular the history is never
    empty when lines 448-454 read its last element. *)
Theorem greeting_stays_first (env : Env) (s : State) :
  reachable env s ->
  exists t0 rest, history s = init_message t0 :: rest.
Proof.
  intros Hr. pose proof (reachable_ids_kept env s Hr) as Hids. revert Hids.
  induction Hr as [t|input s Hr IH|s s' Hr IH Ht|t s Hr IH]; intros Hids.
  - now exists t, [].
  - destruct (IH (reachable_ids_kept env s Hr)) as [t0 [rest Hh]].
    destruct (isProcessing s) eqn:Hp.
    + rewrite handleSend_busy by assumption. eauto.
    + destruct (JS.truthy (JS.trim input)) eqn:Hin.
      * rewrite handleSend_accepted_any by assumption. simpl. rewrite Hh. simpl. eauto.
      * rewrite handleSend_blank by assumption. eauto.
  - pose proof (reachable_ids_kept env s Hr) as [Ha _].
    destruct (IH (reachable_ids_kept env s Hr)) as [t0 [rest Hh]].
    unfold tick in Ht. destruct (timers s) as [|[due k] ts] eqn:E; [discriminate|].
    inversion Ht; subst; clear Ht.
    apply Forall_cons_iff in Ha. destruct Ha as [Hk _].
    assert (Hresp : forall u r st rest0,
               history st = init_message t0 :: rest0 ->
               exists rest', history (respond env u r st) = init_message t0 :: rest').
    { intros u r st rest0 Hst. unfold respond.
      destruct (JS.defined_truthy (API_KEY env)); simpl; rewrite Hst; unfold push;
        simpl; eauto. }
    destruct k as [u r|u r|i ft [d t rest'|d|d|d g rest']|]; cbn [resume].
    + destruct (0 <? List.length r); simpl.
      * rewrite Hh. destruct (report_count_head (List.length r) (init_message t0) rest
                                eq_refl) as [h' ->]. eauto.
      * exists t0. apply (Hresp u r _ (drop_system rest)). simpl. now rewrite Hh.
    + exists t0. now apply (Hresp u r _ rest).
    + unfold ai_task in Hk. simpl in Hk. destruct Hk as [x ->].
      simpl. rewrite Hh. simpl. eauto.
    + unfold ai_task in Hk. simpl in Hk. destruct Hk as [x ->].
      simpl. rewrite Hh. simpl. eauto.
    + simpl. rewrite Hh. unfold push. simpl. eauto.
    + simpl. rewrite Hh. unfold push. simpl. eauto.
    + simpl. rewrite Hh. unfold push. simpl. eauto.
  - simpl. now apply IH.
Qed.

Lemma greeting_stays_first_witness :
  exists t0 rest,
    history (play 50 offline_env [(1000%N, "budget"); (5000%N, "hello")] (mount 7))
    = init_message t0 :: rest.
Proof.
  apply (greeting_stays_first offline_env).
  change (play 50 offline_env [(1000%N, "budget"); (5000%N, "hello")] (mount 7))
    with (run 50 offline_env
            (handleSend offline_env "hello"
               {| now := 5000%N;
                  history := history (run 3 offline_env
                               (handleSend offline_env "budget"
                                  {| now := 1000%N; history := history (mount 7);
                                     isProcessing := isProcessing (mount 7);
                                     timers := timers (mount 7) |}));
                  isProcessing := isProcessing (run 3 offline_env
                               (handleSend offline_env "budget"
                                  {| now := 1000%N; history := history (mount 7);
                                     isProcessing := isProcessing (mount 7);
                                     timers := timers (mount 7) |}));
                  timers := timers (run 3 offline_env
                               (handleSend offline_env "budget"
                                  {| now := 1000%N; history := history (mount 7);
                                     isProcessing := isProcessing (mount 7);
                                     timers := timers (mount 7) |})) |})).
  apply run_reachable. apply reach_submit. apply reach_clock.
  apply run_reachable. apply reach_submit. apply reach_clock. apply reach_mount.
Defined.
(** ** Without an API key *)

Lemma report_count_keeps_others (n : nat) (h : History) (m : Message.t) :
  In m (report_count n h) -> is_system m = false -> In m h.
Proof.
  unfold report_count. destruct (rev h) as [|last front] eqn:E; [tauto|].
  apply rev_cons_inv in E. destruct (is_system last) eqn:Hl; [|tauto].
  intros H Hm. apply in_app_or in H. rewrite E. apply in_or_app.
  destruct H as [H|[<-|[]]]; [now left|].
  unfold is_system in *. simpl in Hm. congruence.
Qed.

Lemma tick_canned (env : Env) (s s' : State) :
  JS.defined_truthy (API_KEY env) = false ->
  Forall no_stream_task (timers s) -> Forall canned (history s) ->
  tick env s = Some s' ->
  Forall no_stream_task (timers s') /\ Forall canned (history s').
Proof.
  intros Hkey Hts Hh Ht. unfold tick in Ht.
  destruct (timers s) as [|[due k] rest] eqn:E; [discriminate|].
  inversion Ht; subst; clear Ht.
  apply Forall_cons_iff in Hts. destruct Hts as [Hk Hrest].
  destruct k as [u r|u r|i ft resp|]; cbn [resume]; try contradiction.
  - destruct (0 <? List.length r); simpl.
    + split; [apply schedule_Forall; [exact I | assumption]|].
      rewrite Forall_forall in *. intros m Hm.
      destruct (report_count_origin _ _ _ Hm) as [m0 [H0 [_ [Hrole Hfl]]]].
      destruct (Hh m0 H0) as [Hnone _]. split; [congruence|].
      intros Ha. apply (Hh m).
      * apply (report_count_keeps_others _ _ _ Hm). unfold is_system. now rewrite Ha.
      * exact Ha.
    + unfold respond. rewrite Hkey. simpl.
      split; [apply schedule_Forall; [exact I | assumption]|].
      rewrite Forall_forall in *. intros m Hm. apply filter_In in Hm. now apply Hh.
  - unfold respond. rewrite Hkey. simpl.
    split; [apply schedule_Forall; [exact I | assumption] | assumption].
  - simpl. split; [assumption|]. apply Forall_app. split; [assumption|].
    constructor; [|constructor]. split; [reflexivity|]. intros _. right. eauto.
Qed.

Lemma reachable_canned (env : Env) (s : State) :
  JS.defined_truthy (API_KEY env) = false ->
  reachable env s ->
  Forall no_stream_task (timers s) /\ Forall canned (history s).
Proof.
  intros Hkey Hr.
  induction Hr as [t|input s Hr IH|s s' Hr IH Ht|t s Hr IH].
  - split; [constructor|]. constructor; [|constructor].
    split; [reflexivity|]. intros _. left. eauto.
  - destruct IH as [Hts Hh]. destruct (isProcessing s) eqn:Hp.
    + rewrite handleSend_busy by assumption. now split.
    + destruct (JS.truthy (JS.trim input)) eqn:Hin.
      * rewrite handleSend_accepted_any by assumption. simpl. split.
        -- apply schedule_Forall; [exact I | assumption].
        -- apply Forall_app. split; [assumption|].
           constructor; [split; [reflexivity | discriminate]|].
           constructor; [split; [reflexivity | discriminate] | constructor].
      * rewrite handleSend_blank by assumption. now split.
  - destruct IH as [Hts Hh]. now apply (tick_canned env s).
  - exact IH.
Qed.

(** Without a usable API key every message of every reachable history is
    unflagged, and the only assistant messages are the greeting and the
    fixed offline notice: the backend's answer, the streaming message and
    the error notice never show up. *)
Theorem offline_replies_are_canned (env : Env) (s : State) :
  JS.defined_truthy (API_KEY env) = false ->
  reachable env s ->
  Forall (fun m => Message.streaming m = false /\
                   (forall t, m <> error_notice t) /\
                   (Message.role m = assistant ->
                    (exists t, m = init_message t) \/ (exists t, m = offline_notice t)))
         (history s).
Proof.
  intros Hkey Hr.
  destruct (reachable_canned env s Hkey Hr) as [_ H]. revert H. apply Forall_impl. intros m [Hnone Hrole].
  split; [unfold Message.streaming; now rewrite Hnone|]. split; [|assumption].
  intros t ->. destruct (Hrole eq_refl) as [[t' Heq]|[t' Heq]]; discriminate.
Qed.

Lemma offline_replies_are_canned_witness :
  Forall (fun m => Message.streaming m = false /\
                   (forall t, m <> error_notice t) /\
                   (Message.role m = assistant ->
                    (exists t, m = init_message t) \/ (exists t, m = offline_notice t)))
         (history (run 3 offline_env (handleSend offline_env "budget" (mount 1000)))).
Proof.
  apply (offline_replies_are_canned offline_env).
  - reflexivity.
  - apply run_reachable. apply reach_submit. apply reach_mount.
Defined.

Lemma schedule_nonempty (d : N) (k : Task) (ts : list (N * Task)) :
  schedule d k ts <> [].
Proof. destruct ts as [|[d' k'] ts]; simpl; [|destruct (d <? d')%N]; discriminate. Qed.

(** Without a key the queue empties only on a fallback timer. *)
Lemma offline_last_turn (env : Env) (s s' : State) :
  JS.defined_truthy (API_KEY env) = false ->
  Forall no_stream_task (timers s) ->
  tick env s = Some s' -> timers s' = [] ->
  exists t, last (history s') (init_message 0) = offline_notice t.
Proof.
  intros Hkey Hts Ht He. unfold tick in Ht.
  destruct (timers s) as [|[due k] rest] eqn:E; [discriminate|].
  inversion Ht; subst; clear Ht.
  apply Forall_cons_iff in Hts. destruct Hts as [Hk _].
  destruct k as [u r|u r|i ft resp|]; cbn [resume] in *; try contradiction.
  - exfalso. destruct (0 <? List.length r); simpl in He.
    + now apply schedule_nonempty in He.
    + unfold respond in He. rewrite Hkey in He. simpl in He.
      now apply schedule_nonempty in He.
  - exfalso. unfold respond in He. rewrite Hkey in He. simpl in He.
    now apply schedule_nonempty in He.
  - simpl. exists due. apply last_last.
Qed.

Lemma offline_rest_last (env : Env) :
  JS.defined_truthy (API_KEY env) = false ->
  forall n s,
    Forall no_stream_task (timers s) -> Forall canned (history s) ->
    timers s <> [] -> timers (run n env s) = [] ->
    exists t, last (history (run n env s)) (init_message 0) = offline_notice t.
Proof.
  intros Hkey. induction n as [|n IH]; intros s Hts Hh Hne He; simpl in *.
  - contradiction.
  - destruct (tick env s) as [s'|] eqn:Ht.
    + destruct (tick_canned env s s' Hkey Hts Hh Ht) as [Hts' Hh'].
      destruct (timers s') as [|x ts'] eqn:E'.
      * rewrite run_idle by assumption.
        now apply (offline_last_turn env s s').
      * apply IH; rewrite ?E'; try assumption. discriminate.
    + contradiction.
Qed.

(** C5 as stated does not hold: along the whole pipeline of a directive
    without API key no assistant message with an empty body exists that
    could be replaced, and when the handler has resolved ([isProcessing]
    false again) the last message is still the directive. *)
Lemma C5_nothing_is_replaced :
  let s0 := handleSend offline_env "status report" (mount 1000) in
  (forall n, Forall (fun m => Message.role m = assistant -> Message.content m <> "")
               (history (run n offline_env s0))) /\
  isProcessing (run 1 offline_env s0) = false /\
  last (history (run 1 offline_env s0)) (init_message 0)
  = user_message "1000" "status report" 1000.
Proof.
  cbv zeta. refine (conj _ (conj _ _)); [|reflexivity|reflexivity].
  intros n.
  assert (H2 : forall k, k <= 2 ->
             Forall (fun m => Message.role m = assistant -> Message.content m <> "")
               (history (run k offline_env
                           (handleSend offline_env "status report" (mount 1000))))).
  { intros k Hk. destruct k as [|[|[|k]]]; [| | |lia];
      repeat (constructor; [intros H; discriminate|]); constructor. }
  destruct (Nat.le_gt_cases n 2) as [Hn|Hn]; [now apply H2|].
  replace n with (2 + (n - 2)) by lia. rewrite run_add, run_idle by reflexivity.
  apply H2. lia.
Qed.

(** C5 as the handler has it: without a usable API key, step 2 of the
    handler takes the fallback branch and not the fault handler.  It
    creates no assistant message and leaves a timer of 500 ms; that timer
    appends the fixed notice "SYSTEM_ALERT: Neural Link Offline (Missing
    API Key)." with no streaming flag.  In every reachable state no
    message is flagged and the only assistant messages are the greeting
    and that notice; and whenever something is pending, the engine comes
    to rest with that notice as the last message. *)
Theorem C5_offline_fallback (env : Env) :
  JS.defined_truthy (API_KEY env) = false ->
  let notice := fun t =>
    Message.mk "err" assistant "SYSTEM_ALERT: Neural Link Offline (Missing API Key)."
      t None in
  (forall userMsg relevant s,
      history (respond env userMsg relevant s) = history s /\
      timers (respond env userMsg relevant s)
      = schedule (now s + 500)%N OfflineNotice (timers s)) /\
  (forall s,
      resume env OfflineNotice s
      = {| now := now s; history := (history s ++ [notice (now s)])%list;
           isProcessing := isProcessing s; timers := timers s |}) /\
  (forall s, reachable env s ->
      Forall (fun m => Message.isStreaming m = None /\
                       (Message.role m = assistant ->
                        (exists t, m = init_message t) \/ (exists t, m = notice t)))
             (history s)) /\
  (forall s, reachable env s -> timers s <> [] ->
      let s' := run (pending_turns env (timers s)) env s in
      idle s' /\ exists t, last (history s') (init_message 0) = notice t).
Proof.
  intros Hkey. cbv zeta. refine (conj _ (conj _ (conj _ _))).
  - intros userMsg relevant s. unfold respond. rewrite Hkey. now split.
  - intros s. reflexivity.
  - intros s Hr. destruct (reachable_canned env s Hkey Hr) as [_ H].
    revert H. apply Forall_impl. intros m H. exact H.
  - intros s Hr Hne.
    destruct (reachable_canned env s Hkey Hr) as [Hts Hh].
    pose proof (run_drains env _ s (le_n _)) as He.
    split.
    + pose proof (serial_invariant env _
                    (run_reachable env (pending_turns env (timers s)) s Hr)) as Hs.
      unfold serial in Hs. rewrite He in Hs. split; [|assumption].
      destruct (isProcessing _); [discriminate | reflexivity].
    + exact (offline_rest_last env Hkey _ s Hts Hh Hne He).
Qed.

Lemma C5_offline_fallback_witness :
  let s := submit_at 50 offline_env 1700 "hello"
             (handleSend offline_env "status report" (mount 1000)) in
  timers s = [(2100%N, OfflineNotice); (2300%N, AfterScan "hello" [])] /\
  idle (run 4 offline_env s) /\
  exists t, last (history (run 4 offline_env s)) (init_message 0)
            = Message.mk "err" assistant
                "SYSTEM_ALERT: Neural Link Offline (Missing API Key)." t None.
Proof.
  split; [reflexivity|].
  destruct (C5_offline_fallback offline_env eq_refl) as [_ [_ [_ H]]].
  apply (H (submit_at 50 offline_env 1700 "hello"
              (handleSend offline_env "status report" (mount 1000)))).
  - unfold submit_at. apply reach_submit.
    change (settle 50 offline_env 1700
              (handleSend offline_env "status report" (mount 1000)))
      with {| now := 1700%N;
              history := history (run 1 offline_env
                                    (handleSend offline_env "status report" (mount 1000)));
              isProcessing := isProcessing (run 1 offline_env
                                    (handleSend offline_env "status report" (mount 1000)));
              timers := timers (run 1 offline_env
                                    (handleSend offline_env "status report" (mount 1000))) |}.
    apply reach_clock. apply run_reachable. apply reach_submit. apply reach_mount.
  - discriminate.
Defined.

(** * The scan, closer *)

Lemma is_upper_moves (c : ascii) : is_upper c = true -> JS.lower_char c <> c.
Proof. destruct c as [[] [] [] [] [] [] [] []]; intros H; try discriminate H; discriminate. Qed.

Lemma not_upper_stays (c : ascii) : is_upper c = false -> JS.lower_char c = c.
Proof. destruct c as [[] [] [] [] [] [] [] []]; intros H; try discriminate H; reflexivity. Qed.

Lemma lower_upper_char (c : ascii) : JS.lower_char (JS.upper_char c) = JS.lower_char c.
Proof. destruct c as [[] [] [] [] [] [] [] []]; reflexivity. Qed.

Lemma toLowerCase_fixed_iff (t : string) :
  JS.toLowerCase t = t <-> has_upper t = false.
Proof.
  unfold JS.toLowerCase. induction t as [|c t IH]; simpl; [tauto|].
  rewrite orb_false_iff, <- IH. split.
  - intros H. injection H as Hc Ht. split; [|exact Ht].
    destruct (is_upper c) eqn:E; [|reflexivity]. exfalso. now apply (is_upper_moves c E).
  - intros [Hc Ht]. now rewrite Ht, (not_upper_stays c Hc).
Qed.

(** A tag with an upper-case letter is dead: line 442 looks for it, as
    stored, in the lower-cased directive, where it cannot occur; a fragment
    whose tags all have one is selected by its body alone. *)
Theorem uppercase_tag_is_dead (userMsg : string) :
  (forall t, has_upper t = true -> JS.includes (JS.toLowerCase userMsg) t = false) /\
  (forall c, Forall (fun t => has_upper t = true) (Chunk.tags c) ->
             chunk_matches userMsg c
             = JS.includes (JS.toLowerCase (Chunk.content c)) (JS.toLowerCase userMsg)).
Proof.
  assert (H : forall t, has_upper t = true ->
                        JS.includes (JS.toLowerCase userMsg) t = false).
  { intros t Ht. destruct (JS.includes (JS.toLowerCase userMsg) t) eqn:E; [|reflexivity].
    apply includes_iff in E. destruct E as [a [b E]].
    apply lowered_piece in E. apply toLowerCase_fixed_iff in E. congruence. }
  split; [exact H|].
  intros c Hc. unfold chunk_matches.
  replace (existsb _ (Chunk.tags c)) with false; [apply orb_false_r|].
  symmetry. induction Hc as [|t ts Ht _ IH]; simpl; [reflexivity|].
  now rewrite (H t Ht), IH.
Qed.

Lemma includes_empty (s : string) : JS.includes s "" = true.
Proof. destruct s; reflexivity. Qed.

(** A fragment carrying the empty tag is selected for every directive. *)
Theorem empty_tag_matches_everything (userMsg : string) (c : Chunk.t) :
  In "" (Chunk.tags c) -> chunk_matches userMsg c = true.
Proof.
  intros H. unfold chunk_matches. apply orb_true_iff. right.
  apply existsb_exists. exists "". split; [assumption | apply includes_empty].
Qed.

Lemma empty_tag_matches_everything_witness :
  chunk_matches "zzz" (Chunk.mk "x" grok "t" "body" "2025" (1 # 2) (1 # 2) ["a"; ""])
  = true.
Proof.
  apply (empty_tag_matches_everything "zzz"
           (Chunk.mk "x" grok "t" "body" "2025" (1 # 2) (1 # 2) ["a"; ""])).
  simpl. right. now left.
Defined.

Lemma toLowerCase_toUpperCase (s : string) :
  JS.toLowerCase (JS.toUpperCase s) = JS.toLowerCase s.
Proof.
  unfold JS.toLowerCase, JS.toUpperCase. induction s as [|c s IH]; simpl;
    [reflexivity | now rewrite lower_upper_char, IH].
Qed.

(** On ASCII texts the scan does not depend on the letter case of the
    directive: typed in capitals or in small letters it selects the same
    fragments. *)
Theorem scan_ignores_directive_case (store : list Chunk.t) (userMsg : string) :
  ascii_text userMsg = true -> ascii_store store ->
  relevantChunks store (JS.toUpperCase userMsg) = relevantChunks store userMsg /\
  relevantChunks store (JS.toLowerCase userMsg) = relevantChunks store userMsg.
Proof.
  intros _ _. unfold relevantChunks, chunk_matches.
  now rewrite toLowerCase_toUpperCase, toLowerCase_idem.
Qed.

Lemma scan_ignores_directive_case_witness :
  map Chunk.id (relevantChunks MOCK_MEMORY "GO TEAM") = ["chk_1"; "chk_6"] /\
  relevantChunks MOCK_MEMORY "GO TEAM" = relevantChunks MOCK_MEMORY "Go Team".
Proof.
  split; [reflexivity|].
  destruct (scan_ignores_directive_case MOCK_MEMORY "Go Team") as [H _].
  - reflexivity.
  - repeat constructor.
  - exact H.
Defined.

Lemma matches_agree (userMsg : string) (c : Chunk.t) :
  Forall (fun t => has_upper t = false) (Chunk.tags c) ->
  chunk_matches userMsg c = spec_matches userMsg c.
Proof.
  intros H. unfold chunk_matches, spec_matches. f_equal.
  induction H as [|t ts Ht _ IH]; simpl; [reflexivity|].
  apply toLowerCase_fixed_iff in Ht. now rewrite Ht, IH.
Qed.

(** On ASCII texts, and on a store whose tags have no upper-case letter,
    the scan selects exactly the fragments of the case-insensitive rule,
    in store order. *)
Theorem scan_meets_rule_on_lowercase_tags (store : list Chunk.t) (userMsg : string) :
  ascii_text userMsg = true -> ascii_store store ->
  lowercase_tags store -> relevantChunks store userMsg = spec_select store userMsg.
Proof.
  intros _ _. unfold lowercase_tags, relevantChunks, spec_select.
  induction 1 as [|c cs Hc _ IH]; simpl; [reflexivity|].
  now rewrite (matches_agree userMsg c Hc), IH.
Qed.

Lemma scan_meets_rule_on_lowercase_tags_witness :
  relevantChunks (firstn 1 MOCK_MEMORY ++ skipn 2 MOCK_MEMORY) "TEAM architecture"
  = spec_select (firstn 1 MOCK_MEMORY ++ skipn 2 MOCK_MEMORY) "TEAM architecture".
Proof.
  apply (scan_meets_rule_on_lowercase_tags
           (firstn 1 MOCK_MEMORY ++ skipn 2 MOCK_MEMORY) "TEAM architecture").
  - reflexivity.
  - repeat constructor.
  - repeat constructor.
Defined.

(** * The context, closer *)

Lemma join_cons (sep x : string) (xs : list string) :
  xs <> [] -> JS.join sep (x :: xs) = x ++ sep ++ JS.join sep xs.
Proof. destruct xs; [congruence | reflexivity]. Qed.



Lemma includes_app (s a b sub : string) :
  s = a ++ sub ++ b -> JS.includes s sub = true.
Proof. intros H. apply includes_iff. now exists a, b. Qed.

Lemma context_holds_block (relevant : list Chunk.t) (c : Chunk.t) :
  In c relevant -> exists a b, context relevant = a ++ render_chunk c ++ b.
Proof.
  unfold context. induction relevant as [|x xs IH]; intros Hin; [contradiction|].
  destruct Hin as [->|Hin].
  - destruct xs as [|x' xs]; cbn [map].
    + exists "", "". cbn [JS.join String.concat]. now rewrite append_empty_r.
    + rewrite join_cons by discriminate. exists "". simpl. eauto.
  - destruct (IH Hin) as [a [b Hab]]. destruct xs as [|x' xs]; [contradiction|].
    cbn [map] in *. rewrite join_cons by discriminate. rewrite Hab.
    exists (render_chunk x ++ JS.nl ++ JS.nl ++ a), b. now rewrite !append_assoc.
Qed.

Lemma systemPrompt_shape (relevant : list Chunk.t) :
  systemPrompt relevant
  = prompt_head ++ JS.or_else (context relevant) no_archival_data ++ prompt_tail.
Proof. reflexivity. Qed.

(** The prompt sent to the backend quotes every selected fragment with its
    reference label, and the sentinel text when nothing was selected, and
    it ends with the directive as typed. *)
Theorem prompt_quotes_selection (relevant : list Chunk.t) (userMsg : string) :
  (forall c, In c relevant ->
             JS.includes (prompt relevant userMsg) (render_chunk c) = true) /\
  (relevant = [] -> JS.includes (prompt relevant userMsg) no_archival_data = true) /\
  (exists before, prompt relevant userMsg = before ++ "Query: " ++ userMsg).
Proof.
  refine (conj _ (conj _ _)).
  - intros c Hin. destruct (context_holds_block relevant c Hin) as [a [b Hab]].
    destruct relevant as [|x xs]; [contradiction|].
    unfold prompt. rewrite systemPrompt_shape. unfold JS.or_else.
    rewrite context_cons_truthy, Hab.
    apply (includes_app _ (prompt_head ++ a)
             (b ++ prompt_tail ++ JS.nl ++ JS.nl ++ "Query: " ++ userMsg)).
    now rewrite !append_assoc.
  - intros ->. unfold prompt. rewrite systemPrompt_shape.
    change (JS.or_else (context []) no_archival_data) with no_archival_data.
    apply (includes_app _ prompt_head
             (prompt_tail ++ JS.nl ++ JS.nl ++ "Query: " ++ userMsg)).
    now rewrite !append_assoc.
  - unfold prompt. exists (systemPrompt relevant ++ JS.nl ++ JS.nl).
    now rewrite !append_assoc.
Qed.

(** * Presentation code *)

(** Whatever the active view is called, the main column shows exactly one
    pane: the overview, the command console, or the restricted notice for
    every other name, the remaining four menu entries among them. *)
Theorem App_shows_one_pane (activeView : string) :
  App_panes activeView
  = [if (activeView =? "overview")%string then OverviewView
     else if (activeView =? "command")%string then CommandView
     else Restricted] /\
  (In activeView menuItems -> activeView <> "overview" -> activeView <> "command" ->
   App_panes activeView = [Restricted]).
Proof.
  assert (H : App_panes activeView
              = [if (activeView =? "overview")%string then OverviewView
                 else if (activeView =? "command")%string then CommandView
                 else Restricted]).
  { unfold App_panes. simpl existsb.
    destruct (activeView =? "overview")%string eqn:E1.
    - apply String.eqb_eq in E1. subst. reflexivity.
    - destruct (activeView =? "command")%string; reflexivity. }
  split; [exact H|]. intros _ H1 H2. rewrite H.
  apply String.eqb_neq in H1, H2. now rewrite H1, H2.
Qed.

Lemma fill_length (n : nat) (cur pad : string) :
  pad <> "" -> String.length (fill n cur pad) = n.
Proof.
  intros Hp. revert cur. induction n as [|n IH]; intros cur; simpl; [reflexivity|].
  destruct cur as [|c cur]; simpl.
  - destruct pad as [|c pad]; [congruence|]. simpl. now rewrite IH.
  - now rewrite IH.
Qed.

Lemma append_length (a b : string) :
  String.length (a ++ b) = String.length a + String.length b.
Proof. induction a as [|c a IH]; simpl; [reflexivity | now rewrite IH]. Qed.

(** Padding with a non-empty filler gives a text of the longer of the two
    lengths that ends with the original; the seconds of the overview's
    clock therefore always show as two digits. *)
Theorem padStart_length (s : string) (targetLength : nat) (padString : string) :
  padString <> "" ->
  String.length (padStart s targetLength padString)
  = Nat.max targetLength (String.length s) /\
  (exists filler, padStart s targetLength padString = filler ++ s) /\
  (forall seconds, seconds < 60 -> String.length (seconds_text seconds) = 2).
Proof.
  intros Hp. refine (conj _ (conj _ _)).
  - unfold padStart. destruct (targetLength <=? String.length s) eqn:E.
    + apply Nat.leb_le in E. lia.
    + apply Nat.leb_gt in E. rewrite append_length, fill_length by assumption. lia.
  - unfold padStart. destruct (targetLength <=? String.length s).
    + now exists "".
    + eauto.
  - intros seconds Hs.
    assert (H : forallb (fun n => String.length (seconds_text n) =? 2) (seq 0 60) = true)
      by (vm_compute; reflexivity).
    rewrite forallb_forall in H. apply Nat.eqb_eq. apply H. apply in_seq. lia.
Qed.

Lemma padStart_length_witness :
  seconds_text 7 = "07" /\ String.length (padStart "7" 2 "0") = 2.
Proof.
  split; [reflexivity|].
  destruct (padStart_length "7" 2 "0") as [H _]; [discriminate | exact H].
Defined.


(** For every whole percentage from 0 to 100 the bar has twenty segments,
    of which the first [value / 5], rounded up, are lit and the others are
    not: 0 lights none, 1 to 5 light one, 96 to 100 light all. *)
Theorem SegmentedProgress_lit (value : nat) :
  value <= 100 ->
  SegmentedProgress (number value)
  = (repeat true ((value + 4) / 5) ++ repeat false (20 - (value + 4) / 5))%list.
Proof.
  intros Hv.
  assert (H : forallb (fun v => if list_eq_dec Bool.bool_dec
                                     (SegmentedProgress (number v))
                                     (repeat true ((v + 4) / 5)
                                      ++ repeat false (20 - (v + 4) / 5))%list
                                then true else false) (seq 0 101) = true)
    by (vm_compute; reflexivity).
  rewrite forallb_forall in H. specialize (H value).
  destruct (list_eq_dec _ _ _) as [E|E]; [exact E|].
  discriminate H. apply in_seq. lia.
Qed.

Lemma SegmentedProgress_lit_witness :
  SegmentedProgress (number 45) = (repeat true 9 ++ repeat false 11)%list.
Proof. apply (SegmentedProgress_lit 45). lia. Defined.

Lemma relevantChunks_sound_witness :
  map Chunk.id (relevantChunks MOCK_MEMORY "Go team") = ["chk_1"; "chk_6"] /\
  forall c, In c (relevantChunks MOCK_MEMORY "Go team") ->
            In c (spec_select MOCK_MEMORY "Go team").
Proof.
  split; [reflexivity|].
  intros c Hc. exact (relevantChunks_sound MOCK_MEMORY "Go team" c Hc).
Defined.

Lemma online_accepting_is_idle_witness :
  let env := online_env (Yield 10 "Sys" (Fault 5)) in
  idle (run 3 env (handleSend env "status report" (mount 1000))).
Proof.
  apply (online_accepting_is_idle (online_env (Yield 10 "Sys" (Fault 5)))).
  - reflexivity.
  - apply run_reachable. apply reach_submit. apply reach_mount.
  - reflexivity.
Defined.


(** * The history as a log *)

Lemma kept_ids_app (a b : History) : kept_ids (a ++ b) = (kept_ids a ++ kept_ids b)%list.
Proof. unfold kept_ids. now rewrite drop_system_app, map_app. Qed.

Lemma kept_ids_system (m : Message.t) : is_system m = true -> kept_ids [m] = [].
Proof. intros H. unfold kept_ids, drop_system. simpl. now rewrite H. Qed.

Lemma kept_ids_report_count (n : nat) (h : History) :
  kept_ids (report_count n h) = kept_ids h.
Proof.
  unfold report_count. destruct (rev h) as [|last front] eqn:E; [reflexivity|].
  apply rev_cons_inv in E. destruct (is_system last) eqn:Hs; [|reflexivity].
  rewrite E, !kept_ids_app. f_equal.
  now rewrite !kept_ids_system.
Qed.

Lemma kept_ids_drop_system (h : History) : kept_ids (drop_system h) = kept_ids h.
Proof.
  unfold kept_ids. f_equal. apply drop_system_id. apply drop_system_clean.
Qed.

Lemma kept_ids_map (f : Message.t -> Message.t) (h : History) :
  (forall m, Message.id (f m) = Message.id m /\ Message.role (f m) = Message.role m) ->
  kept_ids (map f h) = kept_ids h.
Proof.
  intros Hf. unfold kept_ids, drop_system.
  induction h as [|m h IH]; simpl; [reflexivity|].
  destruct (Hf m) as [Hid Hrole]. unfold is_system at 1 3. rewrite Hrole.
  fold (is_system m). destruct (is_system m); simpl; [exact IH|].
  now rewrite Hid, Hrole, IH.
Qed.

Lemma respond_kept_ids (env : Env) (userMsg : string) (relevant : list Chunk.t)
    (s : State) :
  exists l, kept_ids (history (respond env userMsg relevant s))
            = (kept_ids (history s) ++ l)%list.
Proof.
  unfold respond. destruct (JS.defined_truthy (API_KEY env)); simpl.
  - unfold push. rewrite kept_ids_app. eauto.
  - exists []. now rewrite app_nil_r.
Qed.

Lemma tick_kept_ids (env : Env) (s s' : State) :
  tick env s = Some s' ->
  exists l, kept_ids (history s') = (kept_ids (history s) ++ l)%list.
Proof.
  unfold tick. intros Ht. destruct (timers s) as [|[due k] rest]; [discriminate|].
  inversion Ht; subst; clear Ht.
  destruct k as [u r|u r|i ft [d t rest'|d|d|d g rest']|]; cbn [resume].
  - destruct (0 <? List.length r).
    + simpl. exists []. now rewrite kept_ids_report_count, app_nil_r.
    + edestruct respond_kept_ids as [l Hl]. rewrite Hl. simpl.
      rewrite kept_ids_drop_system. eauto.
  - edestruct respond_kept_ids as [l Hl]. rewrite Hl. simpl. eauto.
  - simpl. exists []. rewrite app_nil_r. apply kept_ids_map.
    intros m. now destruct (String.eqb _ _).
  - simpl. exists []. rewrite app_nil_r. apply kept_ids_map.
    intros m. now destruct (String.eqb _ _).
  - simpl. unfold push. rewrite kept_ids_app. eauto.
  - simpl. unfold push. rewrite kept_ids_app. eauto.
  - simpl. unfold push. rewrite kept_ids_app. eauto.
Qed.

(** Apart from system notices the history is a log: in any state, a
    submission and any number of turns of the event loop leave the
    sequence of identifiers and roles of the other messages as it was and
    at most append to it; nothing is removed, reordered or re-attributed. *)
Theorem history_is_append_only (env : Env) (s : State) :
  (forall input, exists l,
      kept_ids (history (handleSend env input s)) = (kept_ids (history s) ++ l)%list) /\
  (forall n, exists l,
      kept_ids (history (run n env s)) = (kept_ids (history s) ++ l)%list).
Proof.
  split.
  - intros input. unfold handleSend.
    destruct (negb (JS.truthy (JS.trim input)) || isProcessing s).
    + exists []. now rewrite app_nil_r.
    + simpl. unfold push. rewrite !kept_ids_app, <- app_assoc. eauto.
  - intros n. revert s. induction n as [|n IH]; intros s; simpl.
    + exists []. now rewrite app_nil_r.
    + destruct (tick env s) as [s'|] eqn:Ht.
      * destruct (tick_kept_ids env s s' Ht) as [l1 H1].
        destruct (IH s') as [l2 H2]. rewrite H2, H1, <- app_assoc. eauto.
      * exists []. now rewrite app_nil_r.
Qed.

(** * Streaming flags and exceptions *)

Lemma report_count_keeps (n : nat) (h : History) (m : Message.t) :
  In m h -> is_system m = false -> In m (report_count n h).
Proof.
  unfold report_count. destruct (rev h) as [|last front] eqn:E; [tauto|].
  apply rev_cons_inv in E. destruct (is_system last) eqn:Hl; [|tauto].
  intros H Hm. rewrite E in H. apply in_app_or in H. apply in_or_app.
  destruct H as [H|[<-|[]]]; [now left | congruence].
Qed.

Lemma respond_keeps (env : Env) (userMsg : string) (relevant : list Chunk.t)
    (s : State) (m : Message.t) :
  In m (history s) -> In m (history (respond env userMsg relevant s)).
Proof.
  intros H. destruct (respond_appends env userMsg relevant s) as [tail [-> _]].
  apply in_or_app. now left.
Qed.

Lemma tick_apologised (env : Env) (s s' : State) :
  Forall ai_task (timers s) -> tick env s = Some s' ->
  apologised (history s) -> apologised (history s').
Proof.
  intros Ha Ht [t0 H0]. exists t0. unfold tick in Ht.
  destruct (timers s) as [|[due k] rest] eqn:E; [discriminate|].
  inversion Ht; subst; clear Ht.
  apply Forall_cons_iff in Ha. destruct Ha as [Hk _].
  destruct k as [u r|u r|i ft [d t rest'|d|d|d g rest']|]; cbn [resume].
  - destruct (0 <? List.length r); simpl.
    + now apply report_count_keeps.
    + apply respond_keeps. simpl. apply filter_In. now split.
  - now apply respond_keeps.
  - unfold ai_task in Hk. simpl in Hk. destruct Hk as [x ->].
    simpl. now apply set_content_keeps.
  - unfold ai_task in Hk. simpl in Hk. destruct Hk as [x ->].
    simpl. now apply stop_streaming_keeps.
  - simpl. apply in_or_app. now left.
  - simpl. apply in_or_app. now left.
  - simpl. apply in_or_app. now left.
Qed.

Lemma respond_owned (env : Env) (userMsg : string) (relevant : list Chunk.t)
    (s : State) :
  streams_owned s -> streams_owned (respond env userMsg relevant s).
Proof.
  intros Ho. unfold respond, streams_owned.
  destruct (JS.defined_truthy (API_KEY env)); simpl.
  - intros m Hm Hst. apply in_app_or in Hm. destruct Hm as [Hm|[<-|[]]].
    + destruct (Ho m Hm Hst) as [d [ft [r Hin']]].
      exists d, ft, r. apply schedule_In. now right.
    + do 3 eexists. apply schedule_In. left. reflexivity.
  - intros m Hm Hst. destruct (Ho m Hm Hst) as [d [ft [r Hin']]].
    exists d, ft, r. apply schedule_In. now right.
Qed.

Lemma tick_owned (env : Env) (s s' : State) :
  streams_owned s -> tick env s = Some s' ->
  apologised (history s') \/ streams_owned s'.
Proof.
  intros Ho Ht. unfold tick in Ht.
  destruct (timers s) as [|[due k] rest] eqn:E; [discriminate|].
  inversion Ht; subst; clear Ht.
  unfold streams_owned in Ho. rewrite E in Ho.
  destruct k as [u r|u r|i ft [d t rest'|d|d|d g rest']|]; cbn [resume].
  - right. destruct (0 <? List.length r).
    + intros m Hm Hst. simpl in Hm. apply report_count_origin in Hm.
      destruct Hm as [m0 [Hm0 [Hid [_ Hfl]]]].
      rewrite (streaming_by_flag _ _ Hfl) in Hst.
      destruct (Ho m0 Hm0 Hst) as [d' [ft' [r' [Hin'|Hin']]]]; [discriminate|].
      rewrite Hid. exists d', ft', r'. simpl. apply schedule_In. now right.
    + apply respond_owned. intros m Hm Hst. simpl in Hm.
      apply filter_In in Hm. destruct Hm as [Hm _].
      destruct (Ho m Hm Hst) as [d' [ft' [r' [Hin'|Hin']]]]; [discriminate|].
      now exists d', ft', r'.
  - right. apply respond_owned. intros m Hm Hst. simpl in Hm.
    destruct (Ho m Hm Hst) as [d' [ft' [r' [Hin'|Hin']]]]; [discriminate|].
    now exists d', ft', r'.
  - right. intros m Hm Hst. simpl in Hm. apply set_content_origin in Hm.
    destruct Hm as [m0 [Hm0 [Hid [_ Hfl]]]].
    rewrite (streaming_by_flag _ _ Hfl) in Hst.
    destruct (Ho m0 Hm0 Hst) as [d' [ft' [r' [Hin'|Hin']]]].
    + inversion Hin'; subst. rewrite Hid. do 3 eexists. simpl.
      apply schedule_In. left. reflexivity.
    + rewrite Hid. exists d', ft', r'. simpl. apply schedule_In. now right.
  - right. intros m Hm Hst. simpl in Hm. apply stop_streaming_origin in Hm.
    destruct Hm as [Hm|[Hm Hid]]; [congruence|].
    destruct (Ho m Hm Hst) as [d' [ft' [r' [Hin'|Hin']]]].
    + inversion Hin'; subst. rewrite String.eqb_refl in Hid. discriminate.
    + now exists d', ft', r'.
  - left. exists due. simpl. apply in_or_app. right. now left.
  - left. exists due. simpl. apply in_or_app. right. now left.
  - right. intros m Hm Hst. simpl in Hm. apply in_app_or in Hm.
    destruct Hm as [Hm|[<-|[]]]; [|discriminate].
    destruct (Ho m Hm Hst) as [d' [ft' [r' [Hin'|Hin']]]]; [discriminate|].
    now exists d', ft', r'.
Qed.

Lemma reachable_flags_accounted (env : Env) (s : State) :
  reachable env s -> flags_accounted s.
Proof.
  induction 1 as [t|input s Hr IH|s s' Hr IH Ht|t s Hr IH].
  - right. intros m [<-|[]]. discriminate.
  - destruct (isProcessing s) eqn:Hp; [now rewrite handleSend_busy|].
    destruct (JS.truthy (JS.trim input)) eqn:Hin; [|now rewrite handleSend_blank].
    rewrite handleSend_accepted_any by assumption.
    destruct IH as [[t0 H0]|Ho].
    + left. exists t0. simpl. apply in_or_app. now left.
    + right. intros m Hm Hst. simpl in Hm. apply in_app_or in Hm.
      destruct Hm as [Hm|[<-|[<-|[]]]]; try discriminate.
      destruct (Ho m Hm Hst) as [d [ft [r Hin']]].
      exists d, ft, r. simpl. apply schedule_In. now right.
  - destruct IH as [Ha|Ho].
    + left. destruct (reachable_ids_kept env s Hr) as [Hai _].
      now apply (tick_apologised env s s').
    + now apply (tick_owned env s s').
  - exact IH.
Qed.

(** A streaming flag outlives its pipeline only together with an error
    notice: in every reachable state in which the engine is not
    processing, a message that is still flagged as streaming is
    accompanied, somewhere in the history, by the fixed error notice of
    the [catch] block.  Without an error notice in the history no flag is
    left. *)
Theorem streaming_flag_left_only_with_error_notice (env : Env) (s : State)
    (m : Message.t) :
  reachable env s -> isProcessing s = false ->
  In m (history s) -> Message.streaming m = true ->
  exists t, In (error_notice t) (history s).
Proof.
  intros Hr Hp Hm Hst.
  destruct (reachable_flags_accounted env s Hr) as [Ha|Ho]; [exact Ha|].
  exfalso. destruct (Ho m Hm Hst) as [d [ft [r Hin]]].
  pose proof (serial_invariant env s Hr) as Hs. unfold serial in Hs. rewrite Hp in Hs.
  pose proof (in_pipeline_zero _ _ _ Hs Hin). discriminate.
Qed.

Lemma streaming_flag_left_only_with_error_notice_witness :
  let env := online_env (YieldGetter 10 (Some "Sys") (Done 5)) in
  exists t, In (error_notice t)
              (history (run 2 env (handleSend env "status report" (mount 1000)))).
Proof.
  apply (streaming_flag_left_only_with_error_notice
           (online_env (YieldGetter 10 (Some "Sys") (Done 5)))
           (run 2 (online_env (YieldGetter 10 (Some "Sys") (Done 5)))
              (handleSend (online_env (YieldGetter 10 (Some "Sys") (Done 5)))
                 "status report" (mount 1000)))
           (Message.mk "ai-1600" assistant "" 1600 (Some true))).
  - apply run_reachable. apply reach_submit. apply reach_mount.
  - reflexivity.
  - simpl. right. right. now left.
  - reflexivity.
Defined.
